(** * A verified model of the calculator state machine of [src/App.tsx]

    The development has three layers.

    - [Number]: the JavaScript [number] type as IEEE-754 binary64, built on
      the executable specification of floating-point arithmetic of the
      standard library ([SpecFloat]), with the run-time functions the
      component calls: [parseFloat], [isNaN], [isFinite], [Math.round] and
      [String(number)].
    - [App]: the component state (the five [useState] cells) and its event
      handlers [inputNumber], [inputDecimal], [clear], [performOperation]
      and [calculate].  A handler reads the state of the render it closes
      over and issues setter calls; the calls of one event are committed
      together, in order, to produce the state of the next render.
    - the vocabulary of the statements, then the theorems about the
      handlers and about the states reachable from the initial render. *)

From Stdlib Require Import ZArith QArith Qround List String Ascii Bool Lia.
From Stdlib Require DecimalPos.
From Stdlib Require Import DecimalString.
From Stdlib Require Import Floats.SpecFloat.
Import ListNotations.

Local Open Scope string_scope.
Local Open Scope Z_scope.

(* ================================================================== *)
(** ** JavaScript numbers                                               *)
(* ================================================================== *)

(** The component computes on the built-in [number] type.  Its values
    and the built-in functions applied to them are defined here after
    ECMA-262: values are the binary64 floating-point numbers with a single
    [NaN], and every operation returns the value nearest to the exact
    result, a tie going to the even one. *)

Module Number.

(** binary64: 53 bits of precision, infinities at exponent 1024 *)
Definition prec : Z := 53.
Definition emax : Z := 1024.

Definition number : Type := spec_float.

Definition pos_zero : number := S754_zero false.
Definition infinity : number := S754_infinity false.

(** the arithmetic operators [+ - * /] on numbers, rounding to nearest,
    ties to even *)
Definition add : number -> number -> number := SFadd prec emax.
Definition sub : number -> number -> number := SFsub prec emax.
Definition mul : number -> number -> number := SFmul prec emax.
Definition div : number -> number -> number := SFdiv prec emax.

Definition isNaN (x : number) : bool :=
  match x with S754_nan => true | _ => false end.

Definition isFinite (x : number) : bool :=
  match x with S754_nan | S754_infinity _ => false | _ => true end.

(** [x === y] on two numbers: [NaN] differs from everything, the two
    zeros are equal *)
Definition strict_eq (x y : number) : bool := SFeqb x y.

(** [ToBoolean] on a number: [0], [-0] and [NaN] are falsy *)
Definition truthy (x : number) : bool :=
  match x with S754_zero _ | S754_nan => false | _ => true end.

(** [x || y] on numbers *)
Definition or_else (x y : number) : number := if truthy x then x else y.

(** the number nearest to the integer [n] *)
Definition of_Z (n : Z) : number := binary_normalize prec emax n 0 false.

(** the number nearest to [(-1)^s * m * 10^e]; a negative power of ten
    goes through the correctly rounded quotient of two integers *)
Definition of_decimal (s : bool) (m e : Z) : number :=
  match m with
  | Zpos p =>
      if 0 <=? e
      then binary_round prec emax s (p * Z.to_pos (10 ^ e)) 0
      else SFdiv prec emax (S754_finite s p 0)
                           (S754_finite false (Z.to_pos (10 ^ (- e))) 0)
  | _ => S754_zero s
  end.

(** *** [parseFloat] *)

Definition is_white_space (c : ascii) : bool :=
  match c with
  | " "%char | "009"%char | "010"%char | "011"%char | "012"%char
  | "013"%char => true
  | _ => false
  end.

Fixpoint trim_start (s : string) : string :=
  match s with
  | String c r => if is_white_space c then trim_start r else s
  | EmptyString => s
  end.

Definition digit_value (c : ascii) : option Z :=
  let n := Z.of_nat (nat_of_ascii c) in
  if (48 <=? n) && (n <=? 57) then Some (n - 48) else None.

(** reads the longest run of decimal digits at the head of [s] on top of
    the value [acc]; returns the value, the number of digits read and
    the rest of the string *)
Fixpoint scan_digits (s : string) (acc count : Z) : Z * Z * string :=
  match s with
  | String c r =>
      match digit_value c with
      | Some d => scan_digits r (10 * acc + d) (count + 1)
      | None => (acc, count, s)
      end
  | EmptyString => (acc, count, s)
  end.

Definition scan_sign (s : string) : bool * string :=
  match s with
  | String "-"%char r => (true, r)
  | String "+"%char r => (false, r)
  | _ => (false, s)
  end.

(** the value of an [ExponentPart] at the head of [s], 0 when there is
    none *)
Definition scan_exponent (s : string) : Z :=
  match s with
  | String c r =>
      if (Ascii.eqb c "e" || Ascii.eqb c "E")%bool then
        let '(neg, r') := scan_sign r in
        let '(e, n, _) := scan_digits r' 0 0 in
        if n =? 0 then 0 else if neg then - e else e
      else 0
  | EmptyString => 0
  end.

(** [parseFloat(s)]: leading white space is skipped, then the longest
    prefix that is a [StrDecimalLiteral] is converted, correctly rounded;
    [NaN] when there is no such prefix.  Strings are sequences of bytes
    here, so that only the white space of ASCII is recognised; the display
    never holds any. *)
Definition parseFloat (s : string) : number :=
  let '(neg, r) := scan_sign (trim_start s) in
  if prefix "Infinity" r then S754_infinity neg
  else
    let '(i, ni, r1) := scan_digits r 0 0 in
    let '(m, nf, r2) :=
      match r1 with
      | String "."%char r' => scan_digits r' i 0
      | _ => (i, 0, r1)
      end in
    if (ni + nf =? 0) then S754_nan
    else of_decimal neg m (scan_exponent r2 - nf).

(** *** [Math.round] *)

(** the integer nearest to [x], a tie going towards +infinity, that is
    [floor (x + 1/2)] computed exactly; a result of zero keeps the sign of
    [x] *)
Definition Math_round (x : number) : number :=
  match x with
  | S754_finite s m e =>
      if 0 <=? e then x
      else
        let n := Z.shiftr (2 * cond_Zopp s (Zpos m) + 2 ^ (- e)) (1 - e) in
        binary_normalize prec emax n 0 s
  | _ => x
  end.

(** *** [String(x)], that is [Number::toString(x, 10)] *)

Definition string_of_Z (n : Z) : string :=
  NilZero.string_of_uint (N.to_uint (Z.to_N n)).

Fixpoint zeros (n : nat) : string :=
  match n with O => "" | S n' => String "0" (zeros n') end.

Section Digits.
(** the positive rational [num / den] to print *)
Variables (x : number) (num den : Z).

(** [num / den < 10 ^ n] *)
Definition below_pow10 (n : Z) : bool :=
  if 0 <=? n then num <? 10 ^ n * den else num * 10 ^ (- n) <? den.

(** the least [n] from [n0] on with [num / den < 10 ^ n] *)
Fixpoint decimal_exponent (fuel : nat) (n0 : Z) : Z :=
  match fuel with
  | O => n0
  | S fuel' =>
      if below_pow10 n0 then n0 else decimal_exponent fuel' (n0 + 1)
  end.

(** [floor (num / den / 10 ^ p)] *)
Definition scaled_floor (p : Z) : Z :=
  if 0 <=? p then num / (den * 10 ^ p) else (num * 10 ^ (- p)) / den.

(** is [c * 10 ^ p] at most as far from [num / den] as
    [(c + 1) * 10 ^ p], strictly ([Lt]), equally ([Eq]) or not ([Gt]) *)
Definition compare_candidates (c p : Z) : comparison :=
  if 0 <=? p
  then (2 * num) ?= ((2 * c + 1) * 10 ^ p * den)
  else (2 * num * 10 ^ (- p)) ?= ((2 * c + 1) * den).

Definition reads_back (c p : Z) : bool :=
  match SFcompare (of_decimal false c p) x with
  | Some Eq => true
  | _ => false
  end.

(** the [k]-digit decimal [s * 10 ^ (n - k)] that reads back as [x],
    when there is one; of two, the nearer to [x], the even one on a
    tie *)
Definition candidate (n k : Z) : option Z :=
  let p := n - k in
  let lo := scaled_floor p in
  match reads_back lo p, reads_back (lo + 1) p with
  | true, true =>
      match compare_candidates lo p with
      | Lt => Some lo
      | Gt => Some (lo + 1)
      | Eq => Some (if Z.even lo then lo else lo + 1)
      end
  | true, false => Some lo
  | false, true => Some (lo + 1)
  | false, false => None
  end.

(** the shortest decimal [(s, k, n)]: [k] digits [s], value
    [s * 10 ^ (n - k)] *)
Fixpoint shortest (fuel : nat) (n k : Z) : Z * Z * Z :=
  match fuel with
  | O => (scaled_floor (n - k), k, n)
  | S fuel' =>
      match candidate n k with
      | Some s => if s =? 10 ^ k then (1, 1, n + 1) else (s, k, n)
      | None => shortest fuel' n (k + 1)
      end
  end.
End Digits.

Definition layout (s k n : Z) : string :=
  let digits := string_of_Z s in
  if (k <=? n) && (n <=? 21) then
    digits ++ zeros (Z.to_nat (n - k))
  else if (0 <? n) && (n <=? 21) then
    substring 0 (Z.to_nat n) digits ++ "." ++
    substring (Z.to_nat n) (Z.to_nat (k - n)) digits
  else if (-6 <? n) && (n <=? 0) then
    "0." ++ zeros (Z.to_nat (- n)) ++ digits
  else
    let e := n - 1 in
    let exponent :=
      "e" ++ (if e <? 0 then "-" else "+") ++ string_of_Z (Z.abs e) in
    if k =? 1 then digits ++ exponent
    else substring 0 1 digits ++ "." ++
         substring 1 (Z.to_nat (k - 1)) digits ++ exponent.

(** a power of ten that is not above [m * 2 ^ e]: with [2 ^ b] the
    leading bit of the value, [b * log10 2] rounded down, [log10 2] being
    between 0.30102 and 0.30103; the decimal exponent is at most three
    above it *)
Definition decimal_exponent_start (m : positive) (e : Z) : Z :=
  let b := Zpos (digits2_pos m) + e - 1 in
  Z.min (b * 30102 / 100000) (b * 30103 / 100000).

Definition toString_pos (m : positive) (e : Z) : string :=
  let x := S754_finite false m e in
  let num := Zpos m * 2 ^ Z.max e 0 in
  let den := 2 ^ Z.max (- e) 0 in
  let n := decimal_exponent num den 8 (decimal_exponent_start m e) in
  let '(s, k, n') := shortest x num den 17 n 1 in
  layout s k n'.

Definition toString (x : number) : string :=
  match x with
  | S754_nan => "NaN"
  | S754_zero _ => "0"
  | S754_infinity s => if s then "-Infinity" else "Infinity"
  | S754_finite s m e =>
      (if s then "-" else "") ++ toString_pos m e
  end.

End Number.


(* ================================================================== *)
(** ** The component                                                    *)
(* ================================================================== *)

Module App.

Import Number.

(** [type Operation = '+' | '-' | '*' | '/' | null] *)
Inductive Operator : Type := Plus | Minus | Times | Divide.
Definition Operation : Type := option Operator.

(** the five state cells of one render *)
Record State : Type := mkState {
  display : string;
  previousValue : option number;
  operation : Operation;
  waitingForOperand : bool;
  error : option string
}.

(** the arguments of the [useState] calls *)
Definition initial : State :=
  {| display := "0";
     previousValue := None;
     operation := None;
     waitingForOperand := false;
     error := None |}.

(** *** Setter calls and handlers *)

Inductive Update : Type :=
| setDisplay (v : string)
| setPreviousValue (v : option number)
| setOperation (v : Operation)
| setWaitingForOperand (v : bool)
| setError (v : option string).

Definition apply (st : State) (u : Update) : State :=
  match u with
  | setDisplay v =>
      mkState v (previousValue st) (operation st) (waitingForOperand st)
              (error st)
  | setPreviousValue v =>
      mkState (display st) v (operation st) (waitingForOperand st)
              (error st)
  | setOperation v =>
      mkState (display st) (previousValue st) v (waitingForOperand st)
              (error st)
  | setWaitingForOperand v =>
      mkState (display st) (previousValue st) (operation st) v (error st)
  | setError v =>
      mkState (display st) (previousValue st) (operation st)
              (waitingForOperand st) v
  end.

(** The body of a handler: the setter calls it has issued so far, and
    its value, [None] once it has executed [return]. *)
Definition Cmd (A : Type) : Type := (list Update * option A)%type.

Definition ret {A : Type} (a : A) : Cmd A := ([], Some a).

Definition bind {A B : Type} (c : Cmd A) (k : A -> Cmd B) : Cmd B :=
  match c with
  | (us, Some a) => let '(us', r) := k a in ((us ++ us')%list, r)
  | (us, None) => (us, None)
  end.

(** a setter call *)
Definition set (u : Update) : Cmd unit := ([u], Some tt).

(** [return;] *)
Definition return_ {A : Type} : Cmd A := ([], None).

(** a call of another handler: its [return] ends the callee only *)
Definition call {A : Type} (c : Cmd A) : Cmd unit := (fst c, Some tt).

(** [if (b) { c }] *)
Definition when (b : bool) (c : Cmd unit) : Cmd unit :=
  if b then c else ret tt.

Notation "x <- c1 ;; c2" := (bind c1 (fun x => c2))
  (at level 61, c1 at next level, right associativity).
Notation "c1 ;; c2" := (bind c1 (fun _ => c2))
  (at level 61, right associativity).

(** A handler closes over the state of the current render. *)
Definition Handler : Type := State -> Cmd unit.

(** the setter calls of one event are committed in order *)
Definition commit (st : State) (us : list Update) : State :=
  fold_left apply us st.

(** the state of the next render after running handler [h] *)
Definition dispatch (h : Handler) (st : State) : State :=
  commit st (fst (h st)).

(** *** The handlers *)

Definition inputNumber (num : string) : Handler := fun st =>
  if waitingForOperand st then
    set (setDisplay num) ;;
    set (setWaitingForOperand false) ;;
    set (setError None)
  else
    set (setDisplay (if String.eqb (display st) "0" then num
                     else display st ++ num)).

Definition inputDecimal : Handler := fun st =>
  if waitingForOperand st then
    set (setDisplay "0.") ;;
    set (setWaitingForOperand false)
  else
    when (match index 0 "." (display st) with None => true | _ => false end)
         (set (setDisplay (display st ++ "."))).

Definition clear : Handler := fun st =>
  set (setDisplay "0") ;;
  set (setPreviousValue None) ;;
  set (setOperation None) ;;
  set (setWaitingForOperand false) ;;
  set (setError None).

(** the literal [1000000000] *)
Definition billion : number := of_Z 1000000000.

(** [Math.round(result * 1000000000) / 1000000000] *)
Definition round9 (result : number) : number :=
  div (Math_round (mul result billion)) billion.

(** The [try] block of the source cannot throw (arithmetic on numbers
    never does), so its [catch] is not modelled; the [default] branch of
    the [switch] is outside the four values of [Operator]. *)
Definition performOperation (nextOperation : Operation) : Handler :=
  fun st =>
  let inputValue := parseFloat (display st) in
  when (isNaN inputValue)
       (set (setError (Some "Invalid input")) ;; return_) ;;
  match previousValue st with
  | None => set (setPreviousValue (Some inputValue))
  | Some previous =>
      match operation st with
      | Some op =>
          let currentValue := or_else previous pos_zero in
          result <-
            match op with
            | Plus => ret (add currentValue inputValue)
            | Minus => ret (sub currentValue inputValue)
            | Times => ret (mul currentValue inputValue)
            | Divide =>
                when (strict_eq inputValue pos_zero)
                     (set (setError (Some "Cannot divide by zero")) ;;
                      return_) ;;
                ret (div currentValue inputValue)
            end ;;
          when (negb (isFinite result))
               (set (setError (Some "Result is too large")) ;; return_) ;;
          let result := round9 result in
          set (setDisplay (toString result)) ;;
          set (setPreviousValue (Some result))
      | None => ret tt
      end
  end ;;
  set (setWaitingForOperand true) ;;
  set (setOperation nextOperation).

Definition calculate : Handler := fun st =>
  call (performOperation None st) ;;
  set (setOperation None) ;;
  set (setPreviousValue None) ;;
  set (setWaitingForOperand true).

(** *** Input events *)

Inductive Digit : Type := D0 | D1 | D2 | D3 | D4 | D5 | D6 | D7 | D8 | D9.

Definition digit_string (d : Digit) : string :=
  match d with
  | D0 => "0" | D1 => "1" | D2 => "2" | D3 => "3" | D4 => "4"
  | D5 => "5" | D6 => "6" | D7 => "7" | D8 => "8" | D9 => "9"
  end.

(** the buttons of the keypad and the keys of [handleKeyPress];
    [OperationEvent None] stands for a direct call of
    [performOperation(null)] *)
Inductive Event : Type :=
| DigitEvent (d : Digit)
| DecimalEvent
| OperationEvent (nextOperation : Operation)
| EqualsEvent
| ClearEvent.

Definition handler_of (ev : Event) : Handler :=
  match ev with
  | DigitEvent d => inputNumber (digit_string d)
  | DecimalEvent => inputDecimal
  | OperationEvent nextOperation => performOperation nextOperation
  | EqualsEvent => calculate
  | ClearEvent => clear
  end.

Definition step (st : State) (ev : Event) : State :=
  dispatch (handler_of ev) st.

Definition run (st : State) (evs : list Event) : State :=
  fold_left step evs st.

Inductive reachable : State -> Prop :=
| reachable_initial : reachable initial
| reachable_step st ev : reachable st -> reachable (step st ev).

(** *** The keyboard *)

(** [['+', '-', '*', '/'].includes(key)], with the operation the key
    stands for *)
Definition operation_of_key (key : string) : Operation :=
  if String.eqb key "+" then Some Plus
  else if String.eqb key "-" then Some Minus
  else if String.eqb key "*" then Some Times
  else if String.eqb key "/" then Some Divide
  else None.

(** the listener of [keydown] events, applied to [event.key]; strings
    are compared as [>=] and [<=] compare them, unit by unit *)
Definition handleKeyPress (key : string) : Handler := fun st =>
  if String.leb "0" key && String.leb key "9" then inputNumber key st
  else if String.eqb key "." then inputDecimal st
  else
    match operation_of_key key with
    | Some op => performOperation (Some op) st
    | None =>
        if String.eqb key "Enter" || String.eqb key "=" then calculate st
        else if String.eqb key "Escape" || String.eqb key "c"
                || String.eqb key "C"
             then clear st
             else ret tt
    end.

(** *** The status line *)

(** the symbol of an operation in a template literal *)
Definition operator_string (op : Operator) : string :=
  match op with
  | Plus => "+" | Minus => "-" | Times => "*" | Divide => "/"
  end.

(** U+00A0, in UTF-8 *)
Definition nbsp : string := String "194" (String "160" "").

(** the line rendered above the display: the error message when there is
    a non-empty one, else the accumulator and the pending operation when
    both are there, else a blank *)
Definition statusLine (st : State) : string :=
  match error st with
  | Some (String c msg) => String c msg
  | _ =>
      match previousValue st, operation st with
      | Some previous, Some op =>
          toString previous ++ " " ++ operator_string op
      | _, _ => nbsp
      end
  end.

End App.

Import Number App.

Arguments parseFloat : simpl never.
Arguments toString : simpl never.
Arguments add : simpl never.
Arguments sub : simpl never.
Arguments mul : simpl never.
Arguments div : simpl never.
Arguments Math_round : simpl never.
Arguments round9 : simpl never.
Arguments strict_eq : simpl never.
Arguments or_else : simpl never.

(* ================================================================== *)
(** ** Vocabulary of the statements                                     *)
(* ================================================================== *)

(** *** Outcomes of [performOperation] *)

(** the arithmetic of the [switch] *)
Definition operate (op : Operator) (currentValue inputValue : number)
  : number :=
  match op with
  | Plus => add currentValue inputValue
  | Minus => sub currentValue inputValue
  | Times => mul currentValue inputValue
  | Divide => div currentValue inputValue
  end.

(** the test of the [Divide] case *)
Definition divides_by_zero (op : Operator) (inputValue : number) : bool :=
  match op with
  | Divide => strict_eq inputValue pos_zero
  | _ => false
  end.

(** the state with only its error message replaced *)
Definition with_error (st : State) (msg : string) : State :=
  apply st (setError (Some msg)).

(** what the specification says of [calculate]: [performOperation(null)],
    then no pending operation, no accumulator, and the flag set *)
Definition calculate_spec (st : State) : State :=
  let st' := dispatch (performOperation None) st in
  {| display := display st';
     previousValue := None;
     operation := None;
     waitingForOperand := true;
     error := error st' |}.

(** *** The shape of the display *)

Definition numeral_char (c : ascii) : bool :=
  match digit_value c with
  | Some _ => true
  | None => Ascii.eqb c "."
  end.

Fixpoint all_chars (p : ascii -> bool) (s : string) : bool :=
  match s with
  | EmptyString => true
  | String c r => p c && all_chars p r
  end.

Fixpoint count_points (s : string) : nat :=
  match s with
  | EmptyString => 0%nat
  | String c r => ((if Ascii.eqb c "." then 1 else 0) + count_points r)%nat
  end.

(** only digits and decimal points, and at most one decimal point *)
Definition decimal_numeral (s : string) : bool :=
  all_chars numeral_char s && (count_points s <=? 1)%nat.

(** the display shows the rounded result of an operation and the next
    digit starts a new operand *)
Definition shows_result (st : State) : Prop :=
  waitingForOperand st = true
  /\ exists x, isFinite x = true /\ display st = toString (round9 x).

(** *** Typed digits *)

Fixpoint digits_string (ds : list Digit) : string :=
  match ds with
  | [] => ""
  | d :: ds' => digit_string d ++ digits_string ds'
  end.

Fixpoint drop_leading_zeros (ds : list Digit) : list Digit :=
  match ds with
  | D0 :: ds' => drop_leading_zeros ds'
  | _ => ds
  end.

(** what typing [ds] leaves on a display that was ["0"] *)
Definition entered_from_zero (ds : list Digit) : string :=
  match drop_leading_zeros ds with
  | [] => "0"
  | ds' => digits_string ds'
  end.

(** the display the specification promises after typing [ds]: the digits
    appended, an original ["0"] being replaced by the first digit *)
Definition claimed_display (original : string) (ds : list Digit) : string :=
  match ds with
  | [] => original
  | d1 :: rest =>
      if String.eqb original "0"
      then digit_string d1 ++ digits_string rest
      else original ++ digits_string ds
  end.

(** *** Exact arithmetic *)

(** the rational a finite number stands for *)
Definition exact_value (x : number) : Q :=
  match x with
  | S754_finite s m e => (inject_Z (cond_Zopp s (Zpos m)) * Qpower 2 e)%Q
  | _ => 0%Q
  end.

Definition exact_operate (op : Operator) (a b : Q) : Q :=
  match op with
  | Plus => a + b
  | Minus => a - b
  | Times => a * b
  | Divide => a / b
  end%Q.

(** a rational rounded to 9 decimal places, a tie going up *)
Definition exact_round9 (q : Q) : Q :=
  (inject_Z (Qfloor (q * 1000000000 + (1 # 2))) / 1000000000)%Q.

(** what the specification says of a stored result: it is the exact
    result of the operation rounded to 9 decimal places *)
Definition stores_exact_round9
    (op : Operator) (currentValue inputValue stored : number) : Prop :=
  (exact_value stored
   == exact_round9 (exact_operate op (exact_value currentValue)
                                  (exact_value inputValue)))%Q.

(** *** Key sequences *)

(** [5 +] *)
Definition five_plus : list Event :=
  [DigitEvent D5; OperationEvent (Some Plus)].

(** [5 / 0] *)
Definition five_by_zero : list Event :=
  [DigitEvent D5; OperationEvent (Some Divide); DigitEvent D0].

(** [3 - 5 =] *)
Definition three_minus_five : list Event :=
  [DigitEvent D3; OperationEvent (Some Minus); DigitEvent D5; EqualsEvent].

(** [0.1 + 0.2 =] *)
Definition tenth_plus_fifth : list Event :=
  [DigitEvent D0; DecimalEvent; DigitEvent D1; OperationEvent (Some Plus);
   DigitEvent D0; DecimalEvent; DigitEvent D2; EqualsEvent].

(** [99999999999999 + 1] *)
Definition nines_plus_one : list Event :=
  repeat (DigitEvent D9) 14 ++ [OperationEvent (Some Plus); DigitEvent D1].

(** [5000000000 + 1] *)
Definition five_billion_plus_one : list Event :=
  DigitEvent D5 :: repeat (DigitEvent D0) 9
  ++ [OperationEvent (Some Plus); DigitEvent D1].

(** the number 2 followed by 299 zeros, then [* 1] *)
Definition two_e299_times_one : list Event :=
  DigitEvent D2 :: repeat (DigitEvent D0) 299
  ++ [OperationEvent (Some Times); DigitEvent D1].

(** *** Strings that parse *)

Definition is_digit (c : ascii) : bool :=
  match digit_value c with Some _ => true | None => false end.

Definition begins_digit (s : string) : bool :=
  match s with
  | String c _ => is_digit c
  | EmptyString => false
  end.

(** the string begins with a digit or with [Infinity], after an optional
    minus sign *)
Definition begins_number (s : string) : bool :=
  match s with
  | String c r =>
      if is_digit c then true
      else if Ascii.eqb c "-" then begins_digit r || prefix "Infinity" r
      else prefix "Infinity" s
  | EmptyString => false
  end.

(** the digits after the decimal point, as [parseFloat] reads them *)
Definition scan_fraction (i : Z) (r1 : string) : Z * Z * string :=
  match r1 with
  | String "."%char r' => scan_digits r' i 0
  | _ => (i, 0, r1)
  end.

(** [parseFloat] after the white space and the sign *)
Definition parse_number (neg : bool) (r : string) : number :=
  if prefix "Infinity" r then S754_infinity neg
  else
    let '(i, ni, r1) := scan_digits r 0 0 in
    let '(m, nf, r2) := scan_fraction i r1 in
    if (ni + nf =? 0) then S754_nan
    else of_decimal neg m (scan_exponent r2 - nf).

(** a zero as it can be typed: ["0"], then zeros and decimal points *)
Definition zero_or_point (c : ascii) : bool :=
  Ascii.eqb c "0" || Ascii.eqb c ".".

Definition zero_numeral (s : string) : bool :=
  match s with
  | String c r => Ascii.eqb c "0" && all_chars zero_or_point r
  | EmptyString => false
  end.

(** the three messages of [performOperation] *)
Definition invalid_input : string := "Invalid input".
Definition cannot_divide : string := "Cannot divide by zero".
Definition too_large : string := "Result is too large".

(** *** The value of typed digits *)

Definition digit_Z (d : Digit) : Z :=
  match d with
  | D0 => 0 | D1 => 1 | D2 => 2 | D3 => 3 | D4 => 4
  | D5 => 5 | D6 => 6 | D7 => 7 | D8 => 8 | D9 => 9
  end.

(** the integer written [ds] after the digits of [acc] *)
Fixpoint digits_value_from (acc : Z) (ds : list Digit) : Z :=
  match ds with
  | [] => acc
  | d :: ds' => digits_value_from (10 * acc + digit_Z d) ds'
  end.

Definition digits_value (ds : list Digit) : Z := digits_value_from 0 ds.

(** the integer an operation gives on two integers *)
Definition exact_integer (op : Operator) (a b : Z) : Z :=
  match op with
  | Plus => a + b
  | Minus => a - b
  | Times => a * b
  | Divide => a / b
  end.

(** the number that is the integer [n], below [2 ^ 53], with sign [s]:
    the mantissa has 53 bits *)
Definition repr (s : bool) (n : positive) : number :=
  S754_finite s (Z.to_pos (Zpos n * 2 ^ (52 - Z.log2 (Zpos n))))
              (Z.log2 (Zpos n) - 52).

(** *** Keys *)

(** the values of [event.key] are one character long or are names, which
    begin with a letter *)
Definition keyboard_key (key : string) : Prop :=
  (String.length key <= 1)%nat \/ begins_digit key = false.

Definition key_step (st : State) (key : string) : State :=
  dispatch (handleKeyPress key) st.

(** the events that type an operand *)
Definition is_typing (ev : Event) : Prop :=
  match ev with
  | DigitEvent _ | DecimalEvent => True
  | _ => False
  end.

(** the events of the keypad: every event but a bare
    [performOperation(null)] *)
Definition is_button (ev : Event) : Prop := ev <> OperationEvent None.

(** the key of a button *)
Definition key_of (ev : Event) : string :=
  match ev with
  | DigitEvent d => digit_string d
  | DecimalEvent => "."
  | OperationEvent (Some op) => operator_string op
  | OperationEvent None => ""
  | EqualsEvent => "Enter"
  | ClearEvent => "Escape"
  end.

(** the keys that are bound, each with the button it stands for; every
    other key is unbound *)
Definition bindings : list (string * Event) :=
  [("0", DigitEvent D0); ("1", DigitEvent D1); ("2", DigitEvent D2);
   ("3", DigitEvent D3); ("4", DigitEvent D4); ("5", DigitEvent D5);
   ("6", DigitEvent D6); ("7", DigitEvent D7); ("8", DigitEvent D8);
   ("9", DigitEvent D9); (".", DecimalEvent);
   ("+", OperationEvent (Some Plus)); ("-", OperationEvent (Some Minus));
   ("*", OperationEvent (Some Times)); ("/", OperationEvent (Some Divide));
   ("Enter", EqualsEvent); ("=", EqualsEvent);
   ("Escape", ClearEvent); ("c", ClearEvent); ("C", ClearEvent)].

Definition button_of_key (key : string) : option Event :=
  option_map snd (find (fun b => String.eqb key (fst b)) bindings).

(** the buttons a sequence of keys stands for: one for each bound key,
    none for an unbound key *)
Definition buttons_of_keys (keys : list string) : list Event :=
  flat_map (fun key => match button_of_key key with
                       | Some ev => [ev]
                       | None => []
                       end) keys.

(** *** Integers and their strings *)

(** the decimal string of an integer *)
Definition integer_string (z : Z) : string :=
  if z <? 0 then "-" ++ string_of_Z (- z) else string_of_Z z.

(** an estimate of the decimal exponent of a number with binary exponent
    [L], as [decimal_exponent_start] computes it, and its accuracy *)
Definition start_of (L : Z) : Z :=
  Z.min (L * 30102 / 100000) (L * 30103 / 100000).

Definition start_check (i : nat) : bool :=
  let L := Z.of_nat i in
  (0 <=? start_of L) && (10 ^ start_of L <=? 2 ^ L)
  && (2 ^ (L + 1) <=? 10 ^ (start_of L + 8)).

(** the fraction [num / den] of [toString_pos] on the integer [n] *)
Definition integer_num (n : positive) : Z :=
  Zpos n * 2 ^ (52 - Z.log2 (Zpos n)).

Definition integer_den (n : positive) : Z := 2 ^ (52 - Z.log2 (Zpos n)).

(** the number held stands for the integer [r]: it is [of_Z r], or the
    negative zero when [r] is 0 *)
Definition holds (v : number) (r : Z) : Prop :=
  v = of_Z r \/ (r = 0 /\ v = S754_zero true).

(** the operation is exact on integers: a division leaves no remainder *)
Definition exact_step (op : Operator) (a b : Z) : Prop :=
  match op with
  | Divide => 0 < b /\ a mod b = 0
  | _ => True
  end.

(** *** Chains of operations *)

(** an operator followed by the digits of its right operand *)
Definition Item : Type := (Operator * (Digit * list Digit))%type.

Definition operand (it : Item) : Z := digits_value (fst (snd it) :: snd (snd it)).

(** the keys of [op1 n1 op2 n2 ... =] *)
Fixpoint tail_events (items : list Item) : list Event :=
  match items with
  | [] => [EqualsEvent]
  | it :: items' =>
      OperationEvent (Some (fst it))
      :: map DigitEvent (fst (snd it) :: snd (snd it)) ++ tail_events items'
  end.

(** the operations applied from left to right *)
Fixpoint chain_value (a : Z) (items : list Item) : Z :=
  match items with
  | [] => a
  | it :: items' => chain_value (exact_integer (fst it) a (operand it)) items'
  end.

(** every division is exact, the operands are below [2 ^ 53] and every
    intermediate result [r] has [|r| * 1000000000 < 2 ^ 53] *)
Fixpoint chain_bounded (a : Z) (items : list Item) : Prop :=
  match items with
  | [] => True
  | it :: items' =>
      exact_step (fst it) a (operand it)
      /\ operand it < 2 ^ 53
      /\ Z.abs (exact_integer (fst it) a (operand it)) * 1000000000 < 2 ^ 53
      /\ chain_bounded (exact_integer (fst it) a (operand it)) items'
  end.

(* ================================================================== *)
(** ** The number model on known values                                 *)
(* ================================================================== *)

Example parseFloat_tenth :
  parseFloat "0.1" = S754_finite false 7205759403792794 (-56).
Proof. vm_compute. reflexivity. Qed.

Example parseFloat_prefix :
  parseFloat "12abc" = of_Z 12
  /\ parseFloat "5." = of_Z 5
  /\ parseFloat ".5" = div (of_Z 1) (of_Z 2)
  /\ parseFloat "1e+21" = of_Z (10 ^ 21)
  /\ parseFloat "-Infinity" = S754_infinity true
  /\ isNaN (parseFloat ".") = true
  /\ isNaN (parseFloat "") = true.
Proof. vm_compute. repeat split. Qed.

Example toString_forms :
  toString (of_Z 100) = "100"
  /\ toString (of_Z (10 ^ 21)) = "1e+21"
  /\ toString (of_Z 123456789012345678901) = "123456789012345680000"
  /\ toString (parseFloat "0.000001") = "0.000001"
  /\ toString (parseFloat "0.0000001") = "1e-7"
  /\ toString (parseFloat "-2.50") = "-2.5"
  /\ toString (S754_zero true) = "0".
Proof. vm_compute. repeat split. Qed.

Example tenth_plus_fifth_unrounded :
  toString (add (parseFloat "0.1") (parseFloat "0.2"))
  = "0.30000000000000004".
Proof. vm_compute. reflexivity. Qed.

Example round9_tenth_plus_fifth :
  round9 (add (parseFloat "0.1") (parseFloat "0.2")) = parseFloat "0.3".
Proof. vm_compute. reflexivity. Qed.

Example Math_round_ties :
  Math_round (parseFloat "2.5") = of_Z 3
  /\ Math_round (parseFloat "-2.5") = of_Z (-2)
  /\ Math_round (parseFloat "-0.5") = S754_zero true
  /\ Math_round (parseFloat "0.49999999999999994") = pos_zero.
Proof. vm_compute. repeat split. Qed.

Example scaling_overflows :
  isFinite (parseFloat "2e299") = true
  /\ mul (parseFloat "2e299") billion = infinity.
Proof. vm_compute. repeat split. Qed.

(* ================================================================== *)
(** ** Committing setter calls                                          *)
(* ================================================================== *)

Lemma commit_app (st : State) (us vs : list Update) :
  commit st (us ++ vs) = commit (commit st us) vs.
Proof. unfold commit. apply fold_left_app. Qed.

Lemma run_app (st : State) (evs evs' : list Event) :
  run st (evs ++ evs') = run (run st evs) evs'.
Proof. unfold run. apply fold_left_app. Qed.

Lemma reachable_run (st : State) (evs : list Event) :
  reachable st -> reachable (run st evs).
Proof.
  revert st. induction evs as [|ev evs IH]; intros st H; simpl.
  - exact H.
  - apply IH. constructor. exact H.
Qed.

Lemma reachable_is_run (st : State) :
  reachable st <-> exists evs, st = run initial evs.
Proof.
  split.
  - induction 1 as [|st ev _ [evs ->]].
    + exists []. reflexivity.
    + exists (evs ++ [ev])%list. rewrite run_app. reflexivity.
  - intros [evs ->]. apply reachable_run. constructor.
Qed.

(* ================================================================== *)
(** ** The outcomes of [performOperation]                               *)
(* ================================================================== *)

Section PerformOperation.

Variables (st : State) (nextOperation : Operation).

Lemma performOperation_invalid :
  isNaN (parseFloat (display st)) = true ->
  dispatch (performOperation nextOperation) st
  = with_error st "Invalid input".
Proof.
  intros H. unfold dispatch, performOperation. rewrite H. reflexivity.
Qed.

Lemma performOperation_first_operand :
  isNaN (parseFloat (display st)) = false ->
  previousValue st = None ->
  dispatch (performOperation nextOperation) st
  = mkState (display st) (Some (parseFloat (display st))) nextOperation
            true (error st).
Proof.
  intros H Hp. unfold dispatch, performOperation.
  rewrite H, Hp. reflexivity.
Qed.

Lemma performOperation_nothing_pending (previous : number) :
  isNaN (parseFloat (display st)) = false ->
  previousValue st = Some previous ->
  operation st = None ->
  dispatch (performOperation nextOperation) st
  = mkState (display st) (Some previous) nextOperation true (error st).
Proof.
  intros H Hp Ho. unfold dispatch, performOperation.
  rewrite H, Hp, Ho. simpl. rewrite Hp. reflexivity.
Qed.

Lemma performOperation_divide_by_zero (previous : number) :
  previousValue st = Some previous ->
  operation st = Some Divide ->
  strict_eq (parseFloat (display st)) pos_zero = true ->
  dispatch (performOperation nextOperation) st
  = with_error st "Cannot divide by zero".
Proof.
  intros Hp Ho Hz. unfold dispatch, performOperation.
  rewrite Hp, Ho, Hz.
  destruct (parseFloat (display st)); try discriminate Hz; reflexivity.
Qed.

Lemma performOperation_overflow (previous : number) (op : Operator) :
  isNaN (parseFloat (display st)) = false ->
  previousValue st = Some previous ->
  operation st = Some op ->
  divides_by_zero op (parseFloat (display st)) = false ->
  isFinite (operate op (or_else previous pos_zero)
                    (parseFloat (display st))) = false ->
  dispatch (performOperation nextOperation) st
  = with_error st "Result is too large".
Proof.
  intros H Hp Ho Hz Hf. unfold dispatch, performOperation.
  rewrite H, Hp, Ho.
  destruct op; simpl in Hz, Hf; try rewrite Hz; simpl;
    rewrite Hf; reflexivity.
Qed.

Lemma performOperation_success (previous : number) (op : Operator) :
  isNaN (parseFloat (display st)) = false ->
  previousValue st = Some previous ->
  operation st = Some op ->
  divides_by_zero op (parseFloat (display st)) = false ->
  isFinite (operate op (or_else previous pos_zero)
                    (parseFloat (display st))) = true ->
  dispatch (performOperation nextOperation) st
  = mkState
      (toString (round9 (operate op (or_else previous pos_zero)
                                 (parseFloat (display st)))))
      (Some (round9 (operate op (or_else previous pos_zero)
                             (parseFloat (display st)))))
      nextOperation true (error st).
Proof.
  intros H Hp Ho Hz Hf. unfold dispatch, performOperation.
  rewrite H, Hp, Ho.
  destruct op; simpl in Hz, Hf; try rewrite Hz; simpl;
    rewrite Hf; reflexivity.
Qed.

(** Every call either only records an error message, or completes:
    the accumulator is then held, the flag set and the operation
    recorded, and the display is unchanged or shows a rounded result. *)
Lemma performOperation_outcome :
  (exists msg, dispatch (performOperation nextOperation) st
               = with_error st msg)
  \/ (exists d v,
        dispatch (performOperation nextOperation) st
        = mkState d (Some v) nextOperation true (error st)
        /\ (d = display st
            \/ exists x, isFinite x = true /\ d = toString (round9 x))).
Proof.
  destruct (isNaN (parseFloat (display st))) eqn:H.
  { left. eexists. apply performOperation_invalid, H. }
  destruct (previousValue st) as [previous|] eqn:Hp.
  2:{ right. do 2 eexists. split.
      - apply performOperation_first_operand; assumption.
      - left; reflexivity. }
  destruct (operation st) as [op|] eqn:Ho.
  2:{ right. do 2 eexists. split.
      - eapply performOperation_nothing_pending; eassumption.
      - left; reflexivity. }
  destruct (divides_by_zero op (parseFloat (display st))) eqn:Hz.
  { left. eexists. destruct op; try discriminate Hz.
    eapply performOperation_divide_by_zero; eassumption. }
  destruct (isFinite (operate op (or_else previous pos_zero)
                              (parseFloat (display st)))) eqn:Hf.
  - right. do 2 eexists. split.
    + eapply performOperation_success; eassumption.
    + right. eexists. split; [exact Hf | reflexivity].
  - left. eexists. eapply performOperation_overflow; eassumption.
Qed.

End PerformOperation.

Lemma dispatch_calculate (st : State) :
  dispatch calculate st = calculate_spec st.
Proof.
  unfold calculate_spec, dispatch, calculate.
  destruct (performOperation None st) as [us r]. simpl.
  rewrite commit_app. reflexivity.
Qed.

(* ================================================================== *)
(** ** Operator selection                                               *)
(* ================================================================== *)

(** C7. For every state, [calculate()] produces the state obtained by
    calling [performOperation(null)] and then clearing the pending
    operation and the accumulator and setting the input-mode flag; display
    and error are the ones [performOperation(null)] produced. *)
Theorem calculate_is_performOperation_then_reset (st : State) :
  dispatch calculate st = calculate_spec st.
Proof. apply dispatch_calculate. Qed.

(** C5. With an accumulator held and [Divide] pending, selecting an
    operation while the display parses to zero records the message
    "Cannot divide by zero" and changes no other state cell. *)
Theorem divide_by_zero_sets_only_error
    (st : State) (nextOperation : Operation) (previous : number) :
  previousValue st = Some previous ->
  operation st = Some Divide ->
  strict_eq (parseFloat (display st)) pos_zero = true ->
  dispatch (performOperation nextOperation) st
  = {| display := display st;
       previousValue := previousValue st;
       operation := operation st;
       waitingForOperand := waitingForOperand st;
       error := Some "Cannot divide by zero" |}.
Proof.
  intros Hp Ho Hz.
  rewrite (performOperation_divide_by_zero st nextOperation previous Hp Ho Hz).
  reflexivity.
Qed.

Lemma divide_by_zero_sets_only_error_witness :
  let st := run initial five_by_zero in
  (previousValue st = Some (of_Z 5)
   /\ operation st = Some Divide
   /\ strict_eq (parseFloat (display st)) pos_zero = true)
  /\ dispatch (performOperation (Some Plus)) st
     = {| display := "0";
          previousValue := Some (of_Z 5);
          operation := Some Divide;
          waitingForOperand := false;
          error := Some "Cannot divide by zero" |}.
Proof.
  split; [repeat split|].
  apply (divide_by_zero_sets_only_error
           (run initial five_by_zero) (Some Plus) (of_Z 5));
    reflexivity.
Defined.

(** C1 (as the code has it). [performOperation] does not read the
    input-mode flag: with an accumulator, a pending operation and the flag
    set, it applies the pending operation to the accumulator and the
    number on the display; when that succeeds the rounded result becomes
    display and accumulator, and the operation selected becomes the
    pending one. *)
Theorem second_operator_applies_pending_operation
    (st : State) (nextOperation : Operation)
    (previous : number) (op : Operator) :
  previousValue st = Some previous ->
  operation st = Some op ->
  waitingForOperand st = true ->
  isNaN (parseFloat (display st)) = false ->
  divides_by_zero op (parseFloat (display st)) = false ->
  isFinite (operate op (or_else previous pos_zero)
                    (parseFloat (display st))) = true ->
  dispatch (performOperation nextOperation) st
  = {| display := toString (round9 (operate op (or_else previous pos_zero)
                                            (parseFloat (display st))));
       previousValue := Some (round9 (operate op (or_else previous pos_zero)
                                              (parseFloat (display st))));
       operation := nextOperation;
       waitingForOperand := true;
       error := error st |}.
Proof.
  intros Hp Ho _ Hn Hz Hf.
  exact (performOperation_success st nextOperation previous op Hn Hp Ho Hz Hf).
Qed.

Lemma second_operator_applies_pending_operation_witness :
  let st := run initial five_plus in
  (previousValue st = Some (of_Z 5)
   /\ operation st = Some Plus
   /\ waitingForOperand st = true
   /\ isNaN (parseFloat (display st)) = false
   /\ divides_by_zero Plus (parseFloat (display st)) = false
   /\ isFinite (operate Plus (or_else (of_Z 5) pos_zero)
                        (parseFloat (display st))) = true)
  /\ dispatch (performOperation (Some Times)) st
     = {| display := "10";
          previousValue := Some (of_Z 10);
          operation := Some Times;
          waitingForOperand := true;
          error := None |}.
Proof.
  split; [repeat split|].
  apply (second_operator_applies_pending_operation
           (run initial five_plus) (Some Times) (of_Z 5) Plus);
    reflexivity.
Defined.

(** C1 (as stated) fails: after [5 +] the display is ["5"], the
    accumulator 5 and the flag is set; pressing [*] then shows ["10"] and
    holds 10. *)
Lemma second_operator_changes_display :
  let st := run initial five_plus in
  st = {| display := "5";
          previousValue := Some (of_Z 5);
          operation := Some Plus;
          waitingForOperand := true;
          error := None |}
  /\ display (dispatch (performOperation (Some Times)) st) = "10"
  /\ previousValue (dispatch (performOperation (Some Times)) st)
     = Some (of_Z 10)
  /\ display (dispatch (performOperation (Some Times)) st) <> display st
  /\ previousValue (dispatch (performOperation (Some Times)) st)
     <> previousValue st.
Proof. vm_compute. repeat split; discriminate. Qed.

(* ================================================================== *)
(** ** The error message                                                *)
(* ================================================================== *)

Lemma clear_resets (st : State) : dispatch clear st = initial.
Proof. reflexivity. Qed.

Lemma inputNumber_waiting_clears_error (st : State) (num : string) :
  waitingForOperand st = true ->
  error (dispatch (inputNumber num) st) = None.
Proof. intros H. unfold dispatch, inputNumber. rewrite H. reflexivity. Qed.

Lemma inputNumber_appending_keeps_error (st : State) (num : string) :
  waitingForOperand st = false ->
  error (dispatch (inputNumber num) st) = error st.
Proof. intros H. unfold dispatch, inputNumber. rewrite H. reflexivity. Qed.

(** C2. A digit does not always clear the error: after [5 / 0 +] the
    message "Cannot divide by zero" is shown with the input-mode flag
    clear, and it is still there after the digit [3] (and indeed after
    the next result), while [clear()] removes it. *)
Theorem digit_after_failed_division_keeps_error :
  let st := run initial (five_by_zero ++ [OperationEvent (Some Plus)]) in
  error st = Some "Cannot divide by zero"
  /\ waitingForOperand st = false
  /\ step st (DigitEvent D3)
     = {| display := "3";
          previousValue := Some (of_Z 5);
          operation := Some Divide;
          waitingForOperand := false;
          error := Some "Cannot divide by zero" |}
  /\ run st [DigitEvent D3; EqualsEvent]
     = {| display := "1.666666667";
          previousValue := None;
          operation := None;
          waitingForOperand := true;
          error := Some "Cannot divide by zero" |}
  /\ error (step st ClearEvent) = None.
Proof. vm_compute. repeat split. Qed.

(** C10. [inputDecimal] never touches the error message. *)
Theorem inputDecimal_keeps_error (st : State) :
  error (dispatch inputDecimal st) = error st.
Proof.
  unfold dispatch, inputDecimal.
  destruct (waitingForOperand st); [reflexivity|].
  destruct (index 0 "." (display st)); reflexivity.
Qed.

(* ================================================================== *)
(** ** Rounding and overflow                                            *)
(* ================================================================== *)

(** C3. The rounding to 9 decimal places is computed on numbers, as
    [Math.round(result * 1000000000) / 1000000000], and it can add the
    error it is there to remove.  [5000000000 + 1] is computed exactly:
    the result is the number 5000000001, which has no decimals to round,
    and the exact result rounded to 9 decimal places is 5000000001.  Yet
    5000000001 * 1000000000 is not a number, the product is rounded, and
    the quotient stored as the accumulator is the number just below
    5000000001; the display shows ["5000000000.999999"], with no error. *)
Theorem rounding_spoils_exact_sum :
  let st := run initial five_billion_plus_one in
  let stored := S754_finite false 5242880001048575 (-20) in
  st = {| display := "1";
          previousValue := Some (of_Z 5000000000);
          operation := Some Plus;
          waitingForOperand := false;
          error := None |}
  /\ operate Plus (or_else (of_Z 5000000000) pos_zero)
                  (parseFloat (display st))
     = of_Z 5000000001
  /\ (exact_value (of_Z 5000000001) == 5000000001)%Q
  /\ (exact_round9 (exact_operate Plus (exact_value (of_Z 5000000000))
                                  (exact_value (parseFloat (display st))))
      == 5000000001)%Q
  /\ step st (OperationEvent (Some Minus))
     = {| display := "5000000000.999999";
          previousValue := Some stored;
          operation := Some Minus;
          waitingForOperand := true;
          error := None |}
  /\ step st EqualsEvent
     = {| display := "5000000000.999999";
          previousValue := None;
          operation := None;
          waitingForOperand := true;
          error := None |}
  /\ (exact_value stored < 5000000001)%Q
  /\ ~ stores_exact_round9 Plus (or_else (of_Z 5000000000) pos_zero)
                           (parseFloat (display st)) stored.
Proof.
  cbv zeta. repeat split; try (vm_compute; reflexivity).
  apply Qeq_bool_neq. vm_compute. reflexivity.
Qed.

(** The part of the rounding that works: [0.1 + 0.2 =] shows ["0.3"]. *)
Example tenth_plus_fifth_shows_rounded :
  display (run initial tenth_plus_fifth) = "0.3".
Proof. vm_compute. reflexivity. Qed.

(** The same with a larger sum: [99999999999999 + 1] is exactly
    100000000000000, which has no decimals to round, yet the number stored
    is 99999999999999.984375 and the display ["99999999999999.98"]. *)
Lemma rounding_perturbs_large_sum :
  let st := run initial nines_plus_one in
  let st' := dispatch (performOperation (Some Minus)) st in
  exists previous stored : number,
    previousValue st = Some previous
    /\ operation st = Some Plus
    /\ isNaN (parseFloat (display st)) = false
    /\ isFinite (operate Plus (or_else previous pos_zero)
                         (parseFloat (display st))) = true
    /\ previousValue st' = Some stored
    /\ display st' = "99999999999999.98"
    /\ ~ stores_exact_round9 Plus (or_else previous pos_zero)
                             (parseFloat (display st)) stored.
Proof.
  cbv zeta.
  exists (of_Z 99999999999999), (S754_finite false 6399999999999999 (-6)).
  repeat split; try (vm_compute; reflexivity).
  apply Qeq_bool_neq. vm_compute. reflexivity.
Qed.

(** C6. The finiteness test precedes the rounding, and the rounding
    multiplies by [1000000000]: the product [2e299 * 1] is finite and
    passes the test, then [Math.round(2e299 * 1000000000)] is [Infinity],
    which is stored as display and as accumulator with no error. *)
Theorem rounding_overflow_stores_infinity :
  let st := run initial two_e299_times_one in
  operation st = Some Times
  /\ (exists previous,
        previousValue st = Some previous
        /\ isFinite (operate Times (or_else previous pos_zero)
                             (parseFloat (display st))) = true)
  /\ step st (OperationEvent (Some Plus))
     = {| display := "Infinity";
          previousValue := Some infinity;
          operation := Some Plus;
          waitingForOperand := true;
          error := None |}.
Proof.
  split; [reflexivity|]. split.
  - eexists. split; [vm_compute; reflexivity | vm_compute; reflexivity].
  - vm_compute. reflexivity.
Qed.

(* ================================================================== *)
(** ** Invariants of the reachable states                               *)
(* ================================================================== *)

Lemma inputNumber_frame (st : State) (num : string) :
  previousValue (dispatch (inputNumber num) st) = previousValue st
  /\ operation (dispatch (inputNumber num) st) = operation st.
Proof.
  unfold dispatch, inputNumber.
  destruct (waitingForOperand st); split; reflexivity.
Qed.

Lemma inputDecimal_frame (st : State) :
  previousValue (dispatch inputDecimal st) = previousValue st
  /\ operation (dispatch inputDecimal st) = operation st.
Proof.
  unfold dispatch, inputDecimal.
  destruct (waitingForOperand st); [split; reflexivity|].
  destruct (index 0 "." (display st)); split; reflexivity.
Qed.

(** C8. In every reachable state, a pending operation comes with an
    accumulator. *)
Theorem pending_operation_has_accumulator (st : State) :
  reachable st -> operation st <> None -> previousValue st <> None.
Proof.
  induction 1 as [|st ev _ IH]; [intros H; contradiction H; reflexivity|].
  destruct ev as [d| |nextOperation| |]; unfold step; simpl handler_of.
  - destruct (inputNumber_frame st (digit_string d)) as [-> ->]. exact IH.
  - destruct (inputDecimal_frame st) as [-> ->]. exact IH.
  - destruct (performOperation_outcome st nextOperation)
      as [[msg ->]|(d & v & -> & _)].
    + exact IH.
    + intros _. discriminate.
  - rewrite dispatch_calculate. intros H; contradiction H; reflexivity.
  - intros H; contradiction H; reflexivity.
Qed.

Lemma pending_operation_has_accumulator_witness :
  let st := run initial five_plus in
  (reachable st /\ operation st <> None) /\ previousValue st <> None.
Proof.
  assert (Hr : reachable (run initial five_plus))
    by apply reachable_run, reachable_initial.
  assert (Ho : operation (run initial five_plus) <> None) by discriminate.
  split; [split; assumption|].
  exact (pending_operation_has_accumulator (run initial five_plus) Hr Ho).
Defined.

(** *** The shape of the display *)

Lemma all_chars_app (p : ascii -> bool) (s t : string) :
  all_chars p (s ++ t) = all_chars p s && all_chars p t.
Proof.
  induction s as [|c s IH]; simpl; [reflexivity|].
  rewrite IH. apply andb_assoc.
Qed.

Lemma count_points_app (s t : string) :
  count_points (s ++ t) = (count_points s + count_points t)%nat.
Proof.
  induction s as [|c s IH]; simpl; [reflexivity|]. rewrite IH. lia.
Qed.

Lemma digit_string_chars (d : Digit) :
  all_chars numeral_char (digit_string d) = true
  /\ count_points (digit_string d) = 0%nat.
Proof. destruct d; split; reflexivity. Qed.

Lemma decimal_numeral_digit (d : Digit) :
  decimal_numeral (digit_string d) = true.
Proof. destruct d; reflexivity. Qed.

Lemma decimal_numeral_app_digit (s : string) (d : Digit) :
  decimal_numeral s = true -> decimal_numeral (s ++ digit_string d) = true.
Proof.
  unfold decimal_numeral. intros H.
  apply andb_true_iff in H as [Ha Hc].
  destruct (digit_string_chars d) as [Hd Hd'].
  rewrite all_chars_app, count_points_app, Ha, Hd, Hd', Nat.add_0_r.
  exact Hc.
Qed.

Lemma index_point_none (s : string) :
  index 0 "." s = None -> count_points s = 0%nat.
Proof.
  induction s as [|c s IH]; [reflexivity|].
  cbn [index prefix count_points].
  destruct (ascii_dec "." c) as [<-|Hc].
  - destruct s; intros H; discriminate H.
  - destruct (index 0 "." s); [intros H; discriminate H|]. intros _.
    rewrite IH by reflexivity.
    destruct (Ascii.eqb_spec c "."); [congruence | reflexivity].
Qed.

Lemma decimal_numeral_app_point (s : string) :
  decimal_numeral s = true -> index 0 "." s = None ->
  decimal_numeral (s ++ ".") = true.
Proof.
  unfold decimal_numeral. intros H Hi.
  apply andb_true_iff in H as [Ha _].
  rewrite all_chars_app, count_points_app, Ha, (index_point_none s Hi).
  reflexivity.
Qed.

(** C4 (as the code has it). In every reachable state the display is a
    numeral of digits with at most one decimal point, or it is the string
    of the rounded result of an operation, shown while the input-mode flag
    is set. *)
Theorem display_is_numeral_or_result (st : State) :
  reachable st -> decimal_numeral (display st) = true \/ shows_result st.
Proof.
  induction 1 as [|st ev _ IH]; [left; reflexivity|].
  destruct ev as [d| |nextOperation| |]; unfold step; simpl handler_of.
  - left. unfold dispatch, inputNumber.
    destruct (waitingForOperand st) eqn:Hw; simpl.
    + apply decimal_numeral_digit.
    + destruct IH as [IH|[Hw' _]]; [|congruence].
      destruct (String.eqb (display st) "0").
      * apply decimal_numeral_digit.
      * apply decimal_numeral_app_digit, IH.
  - left. unfold dispatch, inputDecimal.
    destruct (waitingForOperand st) eqn:Hw; simpl; [reflexivity|].
    destruct IH as [IH|[Hw' _]]; [|congruence].
    destruct (index 0 "." (display st)) eqn:Hi; simpl.
    + exact IH.
    + apply decimal_numeral_app_point; assumption.
  - destruct (performOperation_outcome st nextOperation)
      as [[msg ->]|(d & v & -> & [->|(x & Hx & ->)])].
    + exact IH.
    + destruct IH as [IH|[_ IH]]; [left; exact IH | right; split; auto].
    + right. split; [reflexivity|]. exists x. auto.
  - rewrite dispatch_calculate. unfold calculate_spec.
    destruct (performOperation_outcome st None)
      as [[msg ->]|(d & v & -> & [->|(x & Hx & ->)])].
    + destruct IH as [IH|[_ IH]]; [left; exact IH | right; split; auto].
    + destruct IH as [IH|[_ IH]]; [left; exact IH | right; split; auto].
    + right. split; [reflexivity|]. exists x. auto.
  - left. reflexivity.
Qed.

Lemma display_is_numeral_or_result_witness :
  let st := run initial three_minus_five in
  reachable st /\ (decimal_numeral (display st) = true \/ shows_result st).
Proof.
  assert (Hr : reachable (run initial three_minus_five))
    by apply reachable_run, reachable_initial.
  split; [exact Hr|].
  exact (display_is_numeral_or_result (run initial three_minus_five) Hr).
Defined.

(** C4 (as stated) fails: [3 - 5 =] displays ["-2"]. *)
Lemma display_with_minus_sign :
  let st := run initial three_minus_five in
  reachable st
  /\ display st = "-2"
  /\ decimal_numeral (display st) = false.
Proof.
  split; [apply reachable_run, reachable_initial|].
  split; vm_compute; reflexivity.
Qed.

(* ================================================================== *)
(** ** Typing digits                                                    *)
(* ================================================================== *)

Lemma string_app_assoc (s t u : string) : (s ++ t) ++ u = s ++ (t ++ u).
Proof. induction s as [|c s IH]; simpl; [|rewrite IH]; reflexivity. Qed.

Lemma string_app_nil (s : string) : s ++ "" = s.
Proof. induction s as [|c s IH]; simpl; [|rewrite IH]; reflexivity. Qed.

Lemma step_digit_appending (st : State) (d : Digit) :
  waitingForOperand st = false ->
  step st (DigitEvent d)
  = mkState (if String.eqb (display st) "0" then digit_string d
             else display st ++ digit_string d)
            (previousValue st) (operation st) false (error st).
Proof.
  intros H. unfold step, dispatch. simpl handler_of. unfold inputNumber.
  rewrite H. simpl. rewrite H. reflexivity.
Qed.

Lemma app_digit_not_zero (s : string) (d : Digit) :
  s <> "" -> s ++ digit_string d <> "0" /\ s ++ digit_string d <> "".
Proof.
  intros Hs. destruct s as [|c s]; [contradiction Hs; reflexivity|].
  split; [|discriminate].
  destruct s; destruct d; discriminate.
Qed.

Lemma type_digits_appends (ds : list Digit) (st : State) :
  waitingForOperand st = false ->
  display st <> "0" -> display st <> "" ->
  display (run st (map DigitEvent ds)) = display st ++ digits_string ds.
Proof.
  revert st. induction ds as [|d ds IH]; intros st Hw H0 He; simpl.
  - symmetry. apply string_app_nil.
  - rewrite (step_digit_appending st d Hw).
    apply String.eqb_neq in H0 as H0'. rewrite H0'.
    destruct (app_digit_not_zero (display st) d He) as [H1 H2].
    rewrite IH; simpl; auto. apply string_app_assoc.
Qed.

Lemma type_digits_from_zero (ds : list Digit) (st : State) :
  waitingForOperand st = false ->
  display st = "0" ->
  display (run st (map DigitEvent ds)) = entered_from_zero ds.
Proof.
  revert st. induction ds as [|d ds IH]; intros st Hw H0; simpl.
  - exact H0.
  - rewrite (step_digit_appending st d Hw), H0. simpl.
    destruct d;
      try (rewrite type_digits_appends; simpl;
           try reflexivity; discriminate).
    apply IH; reflexivity.
Qed.

(** C9 (as the code has it). Typing digits while the input-mode flag is
    clear appends them to a display that is not ["0"]; on a display that is
    exactly ["0"] every digit replaces the display as long as it is ["0"],
    so that the result is the digits without their leading zeros, and
    ["0"] when nothing is left. *)
Theorem typed_digits_display (st : State) (ds : list Digit) :
  waitingForOperand st = false ->
  display st <> "" ->
  display (run st (map DigitEvent ds))
  = if String.eqb (display st) "0" then entered_from_zero ds
    else display st ++ digits_string ds.
Proof.
  intros Hw He. destruct (String.eqb_spec (display st) "0") as [H0|H0].
  - apply type_digits_from_zero; assumption.
  - apply type_digits_appends; assumption.
Qed.

Lemma typed_digits_display_witness :
  (waitingForOperand initial = false /\ display initial <> "")
  /\ display (run initial (map DigitEvent [D0; D0; D4; D0; D2])) = "402"
  /\ display (run (run initial [DigitEvent D7])
                  (map DigitEvent [D0; D5])) = "705".
Proof.
  split; [split; [reflexivity | discriminate]|]. split.
  - apply (typed_digits_display initial [D0; D0; D4; D0; D2]).
    + reflexivity.
    + discriminate.
  - apply (typed_digits_display (run initial [DigitEvent D7]) [D0; D5]).
    + reflexivity.
    + discriminate.
Defined.

(** C9 (as stated) fails: on the initial display ["0"], the digits [0]
    and [5] give ["5"], where replacing ["0"] by the first digit and
    appending the second would give ["05"]. *)
Lemma leading_zero_is_replaced_again :
  waitingForOperand initial = false
  /\ display (run initial (map DigitEvent [D0; D5])) = "5"
  /\ claimed_display (display initial) [D0; D5] = "05"
  /\ display (run initial (map DigitEvent [D0; D5]))
     <> claimed_display (display initial) [D0; D5].
Proof. repeat split. discriminate. Qed.

(* ================================================================== *)
(** ** Numbers that are not [NaN]                                       *)
(* ================================================================== *)

Lemma shr_1_nonneg (mrs : shr_record) :
  0 <= shr_m mrs -> 0 <= shr_m (shr_1 mrs).
Proof.
  destruct mrs as [m r s]. destruct m as [|p|p]; simpl; intros H;
    try destruct p; simpl; lia.
Qed.

Lemma iter_shr_1_nonneg (p : positive) (mrs : shr_record) :
  0 <= shr_m mrs -> 0 <= shr_m (iter_pos shr_1 p mrs).
Proof.
  revert mrs. induction p as [p IH|p IH|]; intros mrs H; simpl.
  - apply IH, IH, shr_1_nonneg, H.
  - apply IH, IH, H.
  - apply shr_1_nonneg, H.
Qed.

Lemma shr_fexp_nonneg (m e : Z) (l : location) :
  0 <= m -> 0 <= shr_m (fst (shr_fexp prec emax m e l)).
Proof.
  intros H. unfold shr_fexp, shr.
  assert (H0 : 0 <= shr_m (shr_record_of_loc m l))
    by (destruct l as [|[]]; exact H).
  destruct (fexp prec emax (Zdigits2 m + e) - e); simpl; auto.
  apply iter_shr_1_nonneg, H0.
Qed.

Lemma round_nearest_even_nonneg (m : Z) (l : location) :
  0 <= m -> 0 <= round_nearest_even m l.
Proof.
  intros H. destruct l as [|[]]; simpl; try destruct (Z.even m); lia.
Qed.

Lemma binary_round_aux_not_nan (s : bool) (m e : Z) (l : location) :
  0 <= m -> isNaN (binary_round_aux prec emax s m e l) = false.
Proof.
  intros H. unfold binary_round_aux.
  pose proof (shr_fexp_nonneg m e l H) as H1.
  destruct (shr_fexp prec emax m e l) as [mrs' e']. simpl in H1.
  pose proof (shr_fexp_nonneg _ e' loc_Exact
                (round_nearest_even_nonneg _ (loc_of_shr_record mrs') H1))
    as H2.
  destruct (shr_fexp prec emax _ e' loc_Exact) as [mrs'' e'']. simpl in H2.
  destruct (shr_m mrs'') as [|p|p]; [reflexivity| |lia].
  destruct (e'' <=? emax - prec); reflexivity.
Qed.

Lemma binary_round_not_nan (s : bool) (m : positive) (e : Z) :
  isNaN (binary_round prec emax s m e) = false.
Proof.
  unfold binary_round. destruct (shl_align m e _) as [mz ez].
  apply binary_round_aux_not_nan. lia.
Qed.

Lemma binary_normalize_not_nan (n e : Z) (s : bool) :
  isNaN (binary_normalize prec emax n e s) = false.
Proof.
  destruct n; simpl; [reflexivity| |]; apply binary_round_not_nan.
Qed.

Lemma div_core_nonneg (m1 m2 : positive) (e1 e2 : Z) :
  0 <= fst (fst (SFdiv_core_binary prec emax (Zpos m1) e1 (Zpos m2) e2)).
Proof.
  unfold SFdiv_core_binary.
  set (s := e1 - e2 - _).
  set (m' := match s with Z0 => Zpos m1 | Zpos _ => Z.shiftl (Zpos m1) s
                     | Zneg _ => 0 end).
  assert (Hm : 0 <= m').
  { subst m'. destruct s; try lia. apply Z.shiftl_nonneg. lia. }
  pose proof (Z.div_pos m' (Zpos m2) Hm ltac:(lia)) as Hq.
  unfold Z.div in Hq.
  destruct (Z.div_eucl m' (Zpos m2)) as [q r]. exact Hq.
Qed.

Lemma div_finite_not_nan (sx sy : bool) (mx my : positive) (ex ey : Z) :
  isNaN (div (S754_finite sx mx ex) (S754_finite sy my ey)) = false.
Proof.
  unfold div, SFdiv.
  pose proof (div_core_nonneg mx my ex ey) as H.
  destruct (SFdiv_core_binary prec emax (Zpos mx) ex (Zpos my) ey)
    as [[mz ez] lz].
  apply binary_round_aux_not_nan, H.
Qed.

Lemma of_decimal_not_nan (s : bool) (m e : Z) :
  isNaN (of_decimal s m e) = false.
Proof.
  unfold of_decimal. destruct m as [|p|p]; try reflexivity.
  destruct (0 <=? e).
  - apply binary_round_not_nan.
  - apply div_finite_not_nan.
Qed.

Lemma billion_finite : exists m e, billion = S754_finite false m e.
Proof. do 2 eexists. vm_compute. reflexivity. Qed.

Lemma Math_round_not_nan (x : number) :
  isNaN x = false -> isNaN (Math_round x) = false.
Proof.
  destruct x as [s|s| |s m e]; intros H; try exact H.
  unfold Math_round. destruct (0 <=? e); [reflexivity|].
  apply binary_normalize_not_nan.
Qed.

Lemma round9_not_nan (x : number) :
  isFinite x = true -> isNaN (round9 x) = false.
Proof.
  intros Hx. unfold round9.
  destruct billion_finite as (mb & eb & ->).
  assert (H1 : isNaN (mul x (S754_finite false mb eb)) = false).
  { destruct x as [s|s| |s m e]; try discriminate Hx; try reflexivity.
    unfold mul, SFmul. apply binary_round_aux_not_nan. lia. }
  apply Math_round_not_nan in H1.
  destruct (Math_round (mul x (S754_finite false mb eb)))
    as [s|s| |s m e]; try discriminate H1; try reflexivity.
  apply div_finite_not_nan.
Qed.

(* ================================================================== *)
(** ** The display always parses                                        *)
(* ================================================================== *)

Lemma parseFloat_unfold (s : string) :
  parseFloat s
  = let '(neg, r) := scan_sign (trim_start s) in parse_number neg r.
Proof. reflexivity. Qed.

Lemma scan_digits_count (s : string) (acc count : Z) :
  count <= snd (fst (scan_digits s acc count)).
Proof.
  revert acc count.
  induction s as [|c s IH]; intros acc count; cbn [scan_digits].
  - simpl. lia.
  - destruct (digit_value c) as [d|]; [|simpl; lia].
    specialize (IH (10 * acc + d) (count + 1)). lia.
Qed.

Lemma scan_digits_count_digit (s : string) (acc count : Z) :
  begins_digit s = true -> count + 1 <= snd (fst (scan_digits s acc count)).
Proof.
  destruct s as [|c s]; cbn [begins_digit scan_digits]; [discriminate|].
  unfold is_digit. destruct (digit_value c); [intros _|discriminate].
  apply scan_digits_count.
Qed.

Lemma scan_fraction_count (i : Z) (r1 : string) :
  0 <= snd (fst (scan_fraction i r1)).
Proof.
  unfold scan_fraction.
  destruct r1 as [|[[] [] [] [] [] [] [] []] r']; simpl; try lia.
  apply scan_digits_count.
Qed.

Lemma parse_number_not_nan (neg : bool) (r : string) :
  begins_digit r = true \/ prefix "Infinity" r = true ->
  isNaN (parse_number neg r) = false.
Proof.
  intros H. unfold parse_number.
  destruct (prefix "Infinity" r) eqn:Hp; [reflexivity|].
  destruct H as [H|H]; [|discriminate H].
  pose proof (scan_digits_count_digit r 0 0 H) as Hn.
  destruct (scan_digits r 0 0) as [[i ni] r1]. simpl in Hn.
  pose proof (scan_fraction_count i r1) as Hf.
  destruct (scan_fraction i r1) as [[m nf] r2]. simpl in Hf.
  destruct (Z.eqb_spec (ni + nf) 0); [lia|].
  apply of_decimal_not_nan.
Qed.

Lemma digit_not_sign (c : ascii) (r : string) :
  is_digit c = true ->
  scan_sign (trim_start (String c r)) = (false, String c r).
Proof.
  destruct c as [[] [] [] [] [] [] [] []]; try discriminate; reflexivity.
Qed.

Lemma begins_number_parses (s : string) :
  begins_number s = true -> isNaN (parseFloat s) = false.
Proof.
  intros H. rewrite parseFloat_unfold.
  destruct s as [|c r]; [discriminate H|]. cbn [begins_number] in H.
  destruct (is_digit c) eqn:Hd.
  - rewrite (digit_not_sign c r Hd).
    apply parse_number_not_nan. left. exact Hd.
  - destruct (Ascii.eqb_spec c "-") as [->|Hm].
    + simpl. apply parse_number_not_nan.
      apply orb_true_iff in H. exact H.
    + cbn [prefix] in H.
      destruct (ascii_dec "I" c) as [<-|]; [|discriminate H].
      simpl trim_start. cbn [scan_sign].
      apply parse_number_not_nan. right.
      cbn [prefix]. destruct (ascii_dec "I" "I"); [exact H|congruence].
Qed.

Lemma prefix_app (p r t : string) :
  prefix p r = true -> prefix p (r ++ t) = true.
Proof.
  revert r. induction p as [|c p IH]; intros r;
    [intros _; destruct (r ++ t); reflexivity|].
  destruct r as [|c' r]; cbn [prefix append]; [discriminate|].
  destruct (ascii_dec c c'); [apply IH|discriminate].
Qed.

Lemma begins_digit_app (s t : string) :
  begins_digit s = true -> begins_digit (s ++ t) = true.
Proof. destruct s; [discriminate|]. intros H; exact H. Qed.

Lemma begins_number_app (s t : string) :
  begins_number s = true -> begins_number (s ++ t) = true.
Proof.
  destruct s as [|c r]; [discriminate|].
  cbn [begins_number append].
  destruct (is_digit c); [reflexivity|].
  destruct (Ascii.eqb c "-").
  - intros H. apply orb_true_iff in H as [H|H]; apply orb_true_iff.
    + left. apply begins_digit_app, H.
    + right. apply prefix_app, H.
  - apply (prefix_app "Infinity" (String c r) t).
Qed.

Lemma begins_digit_number (s : string) :
  begins_digit s = true -> begins_number s = true.
Proof.
  destruct s as [|c r]; [discriminate|]. simpl. intros ->. reflexivity.
Qed.

Lemma string_of_Z_begins_digit (n : Z) :
  begins_digit (string_of_Z n) = true.
Proof.
  unfold string_of_Z, NilZero.string_of_uint.
  destruct (N.to_uint (Z.to_N n)); reflexivity.
Qed.

Lemma substring_begins_digit (n : nat) (s : string) :
  begins_digit s = true -> begins_digit (substring 0 (S n) s) = true.
Proof. destruct s; [discriminate|]. intros H; exact H. Qed.

Lemma layout_begins_digit (s k n : Z) :
  begins_digit (layout s k n) = true.
Proof.
  unfold layout.
  pose proof (string_of_Z_begins_digit s) as Hd.
  destruct ((k <=? n) && (n <=? 21)).
  { apply begins_digit_app, Hd. }
  destruct ((0 <? n) && (n <=? 21)) eqn:Hn.
  { apply andb_true_iff in Hn as [Hn _]. apply Z.ltb_lt in Hn.
    destruct (Z.to_nat n) as [|n'] eqn:E; [lia|].
    apply begins_digit_app, substring_begins_digit, Hd. }
  destruct ((-6 <? n) && (n <=? 0)); [reflexivity|].
  destruct (k =? 1).
  - apply begins_digit_app, Hd.
  - apply begins_digit_app. change 1%nat with (S O).
    apply substring_begins_digit, Hd.
Qed.

Lemma toString_begins_number (x : number) :
  isNaN x = false -> begins_number (toString x) = true.
Proof.
  destruct x as [s|s| |s m e]; intros H; try discriminate H.
  - reflexivity.
  - destruct s; reflexivity.
  - unfold toString, toString_pos.
    destruct (shortest _ _ _ _ _ _) as [[d k] n].
    pose proof (layout_begins_digit d k n) as Hl.
    destruct s; simpl.
    + rewrite Hl. reflexivity.
    + apply begins_digit_number, Hl.
Qed.

Lemma digit_string_begins_number (d : Digit) :
  begins_number (digit_string d) = true.
Proof. destruct d; reflexivity. Qed.

(** the invariant behind the next theorems *)
Lemma reachable_begins_number (st : State) :
  reachable st -> begins_number (display st) = true.
Proof.
  induction 1 as [|st ev _ IH]; [reflexivity|].
  destruct ev as [d| |nextOperation| |]; unfold step; simpl handler_of.
  - unfold dispatch, inputNumber.
    destruct (waitingForOperand st); simpl.
    + apply digit_string_begins_number.
    + destruct (String.eqb (display st) "0").
      * apply digit_string_begins_number.
      * apply begins_number_app, IH.
  - unfold dispatch, inputDecimal.
    destruct (waitingForOperand st); simpl; [reflexivity|].
    destruct (index 0 "." (display st)); simpl.
    + exact IH.
    + apply begins_number_app, IH.
  - destruct (performOperation_outcome st nextOperation)
      as [[msg ->]|(d & v & -> & [->|(x & Hx & ->)])]; simpl.
    + exact IH.
    + exact IH.
    + apply toString_begins_number, round9_not_nan, Hx.
  - rewrite dispatch_calculate. unfold calculate_spec.
    destruct (performOperation_outcome st None)
      as [[msg ->]|(d & v & -> & [->|(x & Hx & ->)])]; simpl.
    + exact IH.
    + exact IH.
    + apply toString_begins_number, round9_not_nan, Hx.
  - reflexivity.
Qed.

(** X1. In every reachable state the display parses to a number:
    [parseFloat(display)] is never [NaN], so that [performOperation]
    never takes its "Invalid input" exit. *)
Theorem display_always_parses (st : State) :
  reachable st -> isNaN (parseFloat (display st)) = false.
Proof.
  intros H. apply begins_number_parses, reachable_begins_number, H.
Qed.

Lemma display_always_parses_witness :
  let st := run initial three_minus_five in
  reachable st /\ isNaN (parseFloat (display st)) = false.
Proof.
  assert (Hr : reachable (run initial three_minus_five))
    by apply reachable_run, reachable_initial.
  split; [exact Hr|].
  exact (display_always_parses (run initial three_minus_five) Hr).
Defined.

(** X3. In every reachable state the display is not empty. *)
Theorem display_never_empty (st : State) :
  reachable st -> display st <> "".
Proof.
  intros H E. apply reachable_begins_number in H. rewrite E in H.
  discriminate H.
Qed.

Lemma display_never_empty_witness :
  let st := run initial (five_by_zero ++ [ClearEvent; DecimalEvent]) in
  reachable st /\ display st <> "".
Proof.
  assert (Hr : reachable
                 (run initial (five_by_zero ++ [ClearEvent; DecimalEvent])))
    by apply reachable_run, reachable_initial.
  split; [exact Hr|].
  exact (display_never_empty _ Hr).
Defined.

(* ================================================================== *)
(** ** What an operator key can do                                      *)
(* ================================================================== *)

(** X8. [performOperation] is all or nothing: either it fails, and then
    it replaces the error message by one of its three messages and changes
    nothing else, or it completes, and then the accumulator is held, the
    flag is set, the operation selected is pending and the error message
    is the one there was. *)
Theorem performOperation_all_or_nothing
    (st : State) (nextOperation : Operation) :
  (exists msg,
      (msg = invalid_input \/ msg = cannot_divide \/ msg = too_large)
      /\ dispatch (performOperation nextOperation) st
         = {| display := display st;
              previousValue := previousValue st;
              operation := operation st;
              waitingForOperand := waitingForOperand st;
              error := Some msg |})
  \/ (previousValue (dispatch (performOperation nextOperation) st) <> None
      /\ operation (dispatch (performOperation nextOperation) st)
         = nextOperation
      /\ waitingForOperand (dispatch (performOperation nextOperation) st)
         = true
      /\ error (dispatch (performOperation nextOperation) st) = error st).
Proof.
  destruct (isNaN (parseFloat (display st))) eqn:H.
  { left. exists invalid_input. split; [auto|].
    apply performOperation_invalid, H. }
  destruct (previousValue st) as [previous|] eqn:Hp.
  2:{ right. rewrite performOperation_first_operand by assumption.
      repeat split. discriminate. }
  destruct (operation st) as [op|] eqn:Ho.
  2:{ right.
      rewrite (performOperation_nothing_pending st nextOperation previous)
        by assumption.
      repeat split. discriminate. }
  destruct (divides_by_zero op (parseFloat (display st))) eqn:Hz.
  { left. exists cannot_divide. split; [auto|].
    destruct op; try discriminate Hz.
    rewrite (performOperation_divide_by_zero st nextOperation previous)
      by assumption.
    unfold with_error. simpl. rewrite Hp, Ho. reflexivity. }
  destruct (isFinite (operate op (or_else previous pos_zero)
                              (parseFloat (display st)))) eqn:Hf.
  - right.
    rewrite (performOperation_success st nextOperation previous op)
      by assumption.
    repeat split. discriminate.
  - left. exists too_large. split; [auto|].
    rewrite (performOperation_overflow st nextOperation previous op)
      by assumption.
    unfold with_error. simpl. rewrite Hp, Ho. reflexivity.
Qed.

Lemma performOperation_error (st : State) (nextOperation : Operation) :
  isNaN (parseFloat (display st)) = false ->
  error (dispatch (performOperation nextOperation) st) = error st
  \/ error (dispatch (performOperation nextOperation) st)
     = Some cannot_divide
  \/ error (dispatch (performOperation nextOperation) st) = Some too_large.
Proof.
  intros H.
  destruct (previousValue st) as [previous|] eqn:Hp.
  2:{ left. rewrite performOperation_first_operand by assumption.
      reflexivity. }
  destruct (operation st) as [op|] eqn:Ho.
  2:{ left.
      rewrite (performOperation_nothing_pending st nextOperation previous)
        by assumption.
      reflexivity. }
  destruct (divides_by_zero op (parseFloat (display st))) eqn:Hz.
  { right; left. destruct op; try discriminate Hz.
    rewrite (performOperation_divide_by_zero st nextOperation previous)
      by assumption.
    reflexivity. }
  destruct (isFinite (operate op (or_else previous pos_zero)
                              (parseFloat (display st)))) eqn:Hf.
  - left.
    rewrite (performOperation_success st nextOperation previous op)
      by assumption.
    reflexivity.
  - right; right.
    rewrite (performOperation_overflow st nextOperation previous op)
      by assumption.
    reflexivity.
Qed.

Lemma reachable_error (st : State) :
  reachable st ->
  error st = None \/ error st = Some cannot_divide
  \/ error st = Some too_large.
Proof.
  induction 1 as [|st ev Hr IH]; [left; reflexivity|].
  pose proof (begins_number_parses _ (reachable_begins_number st Hr)) as Hn.
  destruct ev as [d| |nextOperation| |]; unfold step; simpl handler_of.
  - unfold dispatch, inputNumber.
    destruct (waitingForOperand st); simpl; [left; reflexivity|exact IH].
  - unfold dispatch, inputDecimal.
    destruct (waitingForOperand st); simpl; [exact IH|].
    destruct (index 0 "." (display st)); exact IH.
  - destruct (performOperation_error st nextOperation Hn) as [->|[->| ->]];
      auto.
  - rewrite dispatch_calculate. unfold calculate_spec. simpl.
    destruct (performOperation_error st None Hn) as [->|[->| ->]]; auto.
  - left. reflexivity.
Qed.

(** X2. In every reachable state the error message is absent, or
    "Cannot divide by zero", or "Result is too large": "Invalid input" is
    never shown. *)
Theorem error_is_division_or_overflow (st : State) :
  reachable st ->
  error st = None
  \/ error st = Some "Cannot divide by zero"
  \/ error st = Some "Result is too large".
Proof. apply reachable_error. Qed.

Lemma error_is_division_or_overflow_witness :
  let st := run initial (five_by_zero ++ [EqualsEvent]) in
  reachable st
  /\ (error st = None
      \/ error st = Some "Cannot divide by zero"
      \/ error st = Some "Result is too large").
Proof.
  assert (Hr : reachable (run initial (five_by_zero ++ [EqualsEvent])))
    by apply reachable_run, reachable_initial.
  split; [exact Hr|].
  exact (error_is_division_or_overflow _ Hr).
Defined.

(* ================================================================== *)
(** ** Keys pressed in a row                                            *)
(* ================================================================== *)

Lemma performOperation_display_parses
    (st : State) (nextOperation : Operation) :
  isNaN (parseFloat (display st)) = false ->
  isNaN (parseFloat (display (dispatch (performOperation nextOperation) st)))
  = false.
Proof.
  intros H.
  destruct (performOperation_outcome st nextOperation)
    as [[msg ->]|(d & v & -> & [->|(x & Hx & ->)])]; simpl;
    try exact H.
  apply begins_number_parses, toString_begins_number, round9_not_nan, Hx.
Qed.

(** X4. In every state, pressing [=] a second time changes nothing. *)
Theorem equals_twice_is_equals_once (st : State) :
  step (step st EqualsEvent) EqualsEvent = step st EqualsEvent.
Proof.
  unfold step. simpl handler_of.
  rewrite (dispatch_calculate (dispatch calculate st)).
  rewrite (dispatch_calculate st).
  unfold calculate_spec at 1.
  destruct (isNaN (parseFloat (display st))) eqn:H.
  - unfold calculate_spec.
    rewrite (performOperation_invalid st None H).
    rewrite performOperation_invalid by exact H.
    reflexivity.
  - rewrite performOperation_first_operand.
    + reflexivity.
    + apply (performOperation_display_parses st None H).
    + reflexivity.
Qed.






(** X6. From any state, [=] followed by a digit leaves the calculator as
    [clear()] followed by that digit does: the digit starts a new
    calculation, with no accumulator, no pending operation and no error. *)
Theorem digit_after_equals_starts_afresh (st : State) (d : Digit) :
  run st [EqualsEvent; DigitEvent d] = run st [ClearEvent; DigitEvent d]
  /\ run st [EqualsEvent; DigitEvent d]
     = {| display := digit_string d;
          previousValue := None;
          operation := None;
          waitingForOperand := false;
          error := None |}.
Proof.
  assert (E : run st [ClearEvent; DigitEvent d]
              = mkState (digit_string d) None None false None)
    by (destruct d; reflexivity).
  assert (E' : run st [EqualsEvent; DigitEvent d]
               = mkState (digit_string d) None None false None).
  { simpl. unfold step at 2. simpl handler_of. rewrite dispatch_calculate.
    reflexivity. }
  rewrite E, E'. split; reflexivity.
Qed.

(* ================================================================== *)
(** ** The keyboard                                                     *)
(* ================================================================== *)

Lemma digit_range_key (key : string) :
  keyboard_key key ->
  String.leb "0" key && String.leb key "9" = true ->
  exists d, key = digit_string d.
Proof.
  intros K R. destruct key as [|c r]; [discriminate R|].
  destruct K as [K|K].
  - destruct r; [|simpl in K; lia].
    destruct c as [[] [] [] [] [] [] [] []]; vm_compute in R;
      try discriminate R;
      first [ exists D0; reflexivity | exists D1; reflexivity
            | exists D2; reflexivity | exists D3; reflexivity
            | exists D4; reflexivity | exists D5; reflexivity
            | exists D6; reflexivity | exists D7; reflexivity
            | exists D8; reflexivity | exists D9; reflexivity ].
  - destruct c as [[] [] [] [] [] [] [] []]; vm_compute in K;
      try discriminate K; vm_compute in R; discriminate R.
Qed.

Lemma button_of_key_is_button (key : string) (ev : Event) :
  button_of_key key = Some ev -> is_button ev.
Proof.
  unfold button_of_key, bindings. cbn [find fst snd].
  repeat (destruct (String.eqb key _);
          [intros E; injection E as <-; discriminate|]).
  discriminate.
Qed.

Lemma handleKeyPress_binding (key : string) (st : State) :
  keyboard_key key ->
  handleKeyPress key st
  = match button_of_key key with
    | Some ev => handler_of ev st
    | None => ret tt
    end.
Proof.
  intros K. unfold handleKeyPress.
  destruct (String.leb "0" key && String.leb key "9") eqn:R.
  { destruct (digit_range_key key K R) as [d ->]. destruct d; reflexivity. }
  unfold button_of_key, bindings, operation_of_key. cbn [find fst snd].
  assert (N : forall d, String.eqb key (digit_string d) = false).
  { intros d. destruct (String.eqb key (digit_string d)) eqn:E; [|reflexivity].
    apply String.eqb_eq in E. subst key. destruct d; discriminate R. }
  rewrite (N D0 : String.eqb key "0" = false),
    (N D1 : String.eqb key "1" = false), (N D2 : String.eqb key "2" = false),
    (N D3 : String.eqb key "3" = false), (N D4 : String.eqb key "4" = false),
    (N D5 : String.eqb key "5" = false), (N D6 : String.eqb key "6" = false),
    (N D7 : String.eqb key "7" = false), (N D8 : String.eqb key "8" = false),
    (N D9 : String.eqb key "9" = false).
  repeat (destruct (String.eqb key _); [reflexivity|]).
  reflexivity.
Qed.

Lemma key_step_binding (key : string) (st : State) :
  keyboard_key key ->
  key_step st key
  = match button_of_key key with
    | Some ev => step st ev
    | None => st
    end.
Proof.
  intros K. unfold key_step, step, dispatch.
  rewrite (handleKeyPress_binding key st K).
  destruct (button_of_key key); reflexivity.
Qed.

Lemma handleKeyPress_key_of (ev : Event) (st : State) :
  is_button ev -> handleKeyPress (key_of ev) st = handler_of ev st.
Proof.
  intros H. destruct ev as [d| |[op|]| |].
  - destruct d; reflexivity.
  - reflexivity.
  - destruct op; reflexivity.
  - contradiction H. reflexivity.
  - reflexivity.
  - reflexivity.
Qed.

Lemma keyboard_key_of (ev : Event) : keyboard_key (key_of ev).
Proof.
  destruct ev as [d| |[op|]| |].
  - left. destruct d; simpl; lia.
  - left. simpl. lia.
  - left. destruct op; simpl; lia.
  - left. simpl. lia.
  - right. reflexivity.
  - right. reflexivity.
Qed.

(** X10. The keyboard reaches no state of its own.  A key that is one
    character long, or a name that does not begin with a digit, acts as
    the button it is bound to: a digit key as that digit, [.] as the
    point, [+], [-], [*] and [/] as the operators, [Enter] and [=] as
    equals, [Escape], [c] and [C] as clear; every other key leaves the
    state as it is.  So a sequence of keys does what the buttons of its
    bound keys do, and a sequence of unbound keys does nothing. *)
Theorem keys_act_as_buttons (keys : list string) (st : State) :
  Forall keyboard_key keys ->
  Forall is_button (buttons_of_keys keys)
  /\ fold_left key_step keys st = run st (buttons_of_keys keys)
  /\ (Forall (fun key => button_of_key key = None) keys ->
      fold_left key_step keys st = st).
Proof.
  revert st. induction keys as [|key keys IH]; intros st HK.
  - repeat split; constructor.
  - inversion HK as [|? ? K HK']; subst.
    cbn [fold_left buttons_of_keys flat_map].
    rewrite (key_step_binding key st K).
    destruct (button_of_key key) as [ev|] eqn:B.
    + destruct (IH (step st ev) HK') as (H1 & H2 & _).
      repeat split.
      * constructor; [exact (button_of_key_is_button key ev B)|exact H1].
      * exact H2.
      * intros HN. inversion HN as [|? ? N _]. congruence.
    + destruct (IH st HK') as (H1 & H2 & H3).
      repeat split; [exact H1|exact H2|].
      intros HN. inversion HN; subst. auto.
Qed.

Lemma keys_act_as_buttons_witness :
  Forall keyboard_key ["7"; "Shift"; "*"; "6"; "x"; "Enter"]
  /\ Forall is_button [DigitEvent D7; OperationEvent (Some Times);
                       DigitEvent D6; EqualsEvent]
  /\ fold_left key_step ["7"; "Shift"; "*"; "6"; "x"; "Enter"] initial
     = run initial [DigitEvent D7; OperationEvent (Some Times);
                    DigitEvent D6; EqualsEvent].
Proof.
  assert (HK : Forall keyboard_key ["7"; "Shift"; "*"; "6"; "x"; "Enter"]).
  { repeat constructor;
      first [ left; simpl; lia | right; reflexivity ]. }
  split; [exact HK|].
  destruct (keys_act_as_buttons _ initial HK) as (H1 & H2 & _).
  split; [exact H1|exact H2].
Defined.

(** X9. Every button has a key: from any state, what a sequence of
    buttons does is what the sequence of their keys does. *)
Theorem buttons_have_keys (evs : list Event) (st : State) :
  Forall is_button evs ->
  Forall keyboard_key (map key_of evs)
  /\ fold_left key_step (map key_of evs) st = run st evs.
Proof.
  revert st. induction evs as [|ev evs IH]; intros st Hb.
  - split; [constructor|reflexivity].
  - inversion Hb as [|? ? Hev Hb']; subst. simpl.
    assert (E : key_step st (key_of ev) = step st ev).
    { unfold key_step, step, dispatch.
      rewrite (handleKeyPress_key_of ev st Hev). reflexivity. }
    rewrite E. destruct (IH (step st ev) Hb') as [H1 H2].
    split; [constructor; [apply keyboard_key_of|exact H1]|exact H2].
Qed.

Lemma buttons_have_keys_witness :
  Forall is_button three_minus_five
  /\ fold_left key_step ["3"; "-"; "5"; "Enter"] initial
     = run initial three_minus_five.
Proof.
  assert (Hb : Forall is_button three_minus_five)
    by (repeat constructor; discriminate).
  split; [exact Hb|].
  exact (proj2 (buttons_have_keys three_minus_five initial Hb)).
Defined.

(* ================================================================== *)
(** ** Entering an integer                                              *)
(* ================================================================== *)

Lemma scan_digit_string (d : Digit) (s : string) (acc count : Z) :
  scan_digits (digit_string d ++ s) acc count
  = scan_digits s (10 * acc + digit_Z d) (count + 1).
Proof. destruct d; reflexivity. Qed.

Lemma scan_digits_string (ds : list Digit) (acc count : Z) :
  scan_digits (digits_string ds) acc count
  = (digits_value_from acc ds, count + Z.of_nat (List.length ds), "").
Proof.
  revert acc count. induction ds as [|d ds IH]; intros acc count.
  - cbn [digits_string scan_digits List.length digits_value_from].
    f_equal. f_equal. simpl. lia.
  - cbn [digits_string digits_value_from List.length].
    rewrite scan_digit_string, IH. f_equal. f_equal. lia.
Qed.

Lemma digits_string_cons (d : Digit) (ds : list Digit) :
  exists c, is_digit c = true
            /\ digits_string (d :: ds) = String c (digits_string ds).
Proof. destruct d; eexists; (split; [|reflexivity]); reflexivity. Qed.

Lemma digits_value_from_nonneg (ds : list Digit) (acc : Z) :
  0 <= acc -> 0 <= digits_value_from acc ds.
Proof.
  revert acc.
  induction ds as [|d ds IH]; intros acc H; cbn [digits_value_from];
    [exact H|].
  apply IH. destruct d; cbn [digit_Z]; lia.
Qed.

Lemma of_decimal_integer (v : Z) : 0 <= v -> of_decimal false v 0 = of_Z v.
Proof.
  intros H. destruct v as [|p|p]; [reflexivity| |lia].
  unfold of_decimal, of_Z. simpl. rewrite Pos.mul_1_r. reflexivity.
Qed.

Lemma parseFloat_digits (d : Digit) (ds : list Digit) :
  parseFloat (digits_string (d :: ds)) = of_Z (digits_value (d :: ds)).
Proof.
  rewrite parseFloat_unfold.
  destruct (digits_string_cons d ds) as (c & Hc & E).
  rewrite E, (digit_not_sign c _ Hc), <- E.
  unfold parse_number.
  assert (P : prefix "Infinity" (digits_string (d :: ds)) = false).
  { rewrite E. cbn [prefix].
    destruct (ascii_dec "I" c) as [<-|]; [discriminate Hc|reflexivity]. }
  rewrite P, scan_digits_string.
  cbn [scan_fraction scan_exponent List.length].
  destruct (Z.eqb_spec (0 + Z.of_nat (S (List.length ds)) + 0) 0); [lia|].
  change (0 - 0) with 0. apply of_decimal_integer.
  apply digits_value_from_nonneg. lia.
Qed.

Lemma digits_value_drop (ds : list Digit) :
  digits_value (drop_leading_zeros ds) = digits_value ds.
Proof.
  induction ds as [|d ds IH]; [reflexivity|].
  destruct d; try reflexivity. exact IH.
Qed.

Lemma parseFloat_entered (ds : list Digit) :
  parseFloat (entered_from_zero ds) = of_Z (digits_value ds).
Proof.
  rewrite <- digits_value_drop. unfold entered_from_zero.
  destruct (drop_leading_zeros ds) as [|d ds']; [reflexivity|].
  apply parseFloat_digits.
Qed.

Lemma type_digits_frame (ds : list Digit) (st : State) :
  waitingForOperand st = false ->
  previousValue (run st (map DigitEvent ds)) = previousValue st
  /\ operation (run st (map DigitEvent ds)) = operation st
  /\ waitingForOperand (run st (map DigitEvent ds)) = false
  /\ error (run st (map DigitEvent ds)) = error st.
Proof.
  revert st. induction ds as [|d ds IH]; intros st Hw; simpl; [auto|].
  rewrite (step_digit_appending st d Hw).
  apply (IH (mkState _ _ _ _ _)). reflexivity.
Qed.

Lemma typed_integer_state (ds : list Digit) (nextOperation : Operation) :
  run initial (map DigitEvent ds ++ [OperationEvent nextOperation])
  = mkState (entered_from_zero ds) (Some (of_Z (digits_value ds)))
            nextOperation true None.
Proof.
  rewrite run_app.
  pose proof (type_digits_from_zero ds initial eq_refl eq_refl) as Hd.
  destruct (type_digits_frame ds initial eq_refl) as (Hp & Ho & Hw & He).
  set (st := run initial (map DigitEvent ds)) in *.
  change (run st [OperationEvent nextOperation])
    with (dispatch (performOperation nextOperation) st).
  rewrite performOperation_first_operand.
  - rewrite Hd, He, parseFloat_entered. reflexivity.
  - rewrite Hd, parseFloat_entered. apply binary_normalize_not_nan.
  - exact Hp.
Qed.

(** X7. On the initial (or cleared) calculator, typing the digits of a
    natural number and pressing an operator key stores the number nearest
    to that integer as the accumulator, makes the operation pending, sets
    the flag, and leaves on the display the digits typed without their
    leading zeros. *)
Theorem typed_integer_becomes_accumulator
    (ds : list Digit) (nextOperation : Operation) :
  run initial (map DigitEvent ds ++ [OperationEvent nextOperation])
  = {| display := entered_from_zero ds;
       previousValue := Some (of_Z (digits_value ds));
       operation := nextOperation;
       waitingForOperand := true;
       error := None |}.
Proof.
  apply typed_integer_state.
Qed.

(* ================================================================== *)
(** ** The status line                                                  *)
(* ================================================================== *)

Lemma reachable_pending (st : State) :
  reachable st -> operation st <> None -> previousValue st <> None.
Proof.
  induction 1 as [|st ev _ IH]; [intros H; contradiction H; reflexivity|].
  destruct ev as [d| |nextOperation| |]; unfold step; simpl handler_of.
  - destruct (inputNumber_frame st (digit_string d)) as [-> ->]. exact IH.
  - destruct (inputDecimal_frame st) as [-> ->]. exact IH.
  - destruct (performOperation_outcome st nextOperation)
      as [[msg ->]|(d & v & -> & _)]; [exact IH|discriminate].
  - rewrite dispatch_calculate. intros H; contradiction H; reflexivity.
  - intros H; contradiction H; reflexivity.
Qed.

(** X11. In every reachable state the line above the display hides
    nothing: it is the error message when there is one, else the
    accumulator and the operator when an operation is pending, else
    blank. *)
Theorem statusLine_shows_error_or_pending (st : State) :
  reachable st ->
  statusLine st
  = match error st, operation st with
    | Some msg, _ => msg
    | None, Some op =>
        match previousValue st with
        | Some previous => toString previous ++ " " ++ operator_string op
        | None => nbsp
        end
    | None, None => nbsp
    end
  /\ (error st = None -> operation st <> None -> statusLine st <> nbsp).
Proof.
  intros Hr.
  pose proof (reachable_error st Hr) as He.
  pose proof (reachable_pending st Hr) as Hp.
  unfold statusLine.
  destruct (error st) as [msg|].
  - split; [|discriminate].
    destruct He as [He|[He|He]]; inversion He; reflexivity.
  - destruct (operation st) as [op|].
    + destruct (previousValue st) as [previous|];
        [|contradiction Hp; [discriminate|reflexivity]].
      split; [reflexivity|]. intros _ _ E.
      assert (L : String.length (toString previous ++ " " ++ operator_string op)
                  = String.length nbsp) by (rewrite E; reflexivity).
      assert (B : begins_number (toString previous ++ " " ++ operator_string op)
                  = begins_number nbsp) by (rewrite E; reflexivity).
      destruct (isNaN previous) eqn:Hn.
      * destruct previous; try discriminate Hn.
        destruct op; discriminate L.
      * rewrite (begins_number_app _ _ (toString_begins_number _ Hn)) in B.
        discriminate B.
    + split; [destruct (previousValue st); reflexivity|].
      intros _ H. contradiction H. reflexivity.
Qed.

Lemma statusLine_shows_error_or_pending_witness :
  let st := run initial five_plus in
  reachable st /\ statusLine st = "5 +".
Proof.
  assert (Hr : reachable (run initial five_plus))
    by apply reachable_run, reachable_initial.
  split; [exact Hr|].
  exact (proj1 (statusLine_shows_error_or_pending _ Hr)).
Defined.

(* ================================================================== *)
(** ** Dividing by a typed zero                                         *)
(* ================================================================== *)

Lemma scan_zeros (s : string) (count : Z) :
  all_chars zero_or_point s = true ->
  exists n r1,
    scan_digits s 0 count = (0, n, r1)
    /\ all_chars zero_or_point r1 = true /\ count <= n.
Proof.
  revert count. induction s as [|c s IH]; intros count H.
  - exists count, "". repeat split. lia.
  - cbn [all_chars] in H. apply andb_true_iff in H as [Hc Hs].
    unfold zero_or_point in Hc. apply orb_true_iff in Hc as [Hc|Hc];
      apply Ascii.eqb_eq in Hc; subst c.
    + destruct (IH (count + 1) Hs) as (n & r1 & E & Hr & Hn).
      exists n, r1. repeat split; [exact E|exact Hr|lia].
    + exists count, (String "." s). repeat split; [|lia].
      cbn [all_chars]. rewrite Hs. reflexivity.
Qed.

Lemma scan_fraction_zeros (r1 : string) :
  all_chars zero_or_point r1 = true ->
  exists nf r2, scan_fraction 0 r1 = (0, nf, r2) /\ 0 <= nf.
Proof.
  intros H. destruct r1 as [|c r'].
  - exists 0, "". split; [reflexivity|lia].
  - cbn [all_chars] in H. apply andb_true_iff in H as [Hc Hs].
    unfold zero_or_point in Hc. apply orb_true_iff in Hc as [Hc|Hc];
      apply Ascii.eqb_eq in Hc; subst c.
    + exists 0, (String "0" r'). split; [reflexivity|lia].
    + destruct (scan_zeros r' 0 Hs) as (n & r2 & E & _ & Hn).
      exists n, r2. split; [exact E|exact Hn].
Qed.

Lemma parseFloat_zero_numeral (s : string) :
  zero_numeral s = true -> parseFloat s = pos_zero.
Proof.
  destruct s as [|c r]; [discriminate|]. cbn [zero_numeral]. intros H.
  apply andb_true_iff in H as [Hc Hr]. apply Ascii.eqb_eq in Hc. subst c.
  rewrite parseFloat_unfold, (digit_not_sign "0" r eq_refl).
  unfold parse_number.
  assert (P : prefix "Infinity" (String "0" r) = false) by reflexivity.
  rewrite P.
  destruct (scan_zeros r 1 Hr) as (ni & r1 & E & Hr1 & Hni).
  change (scan_digits (String "0" r) 0 0) with (scan_digits r 0 1).
  rewrite E.
  destruct (scan_fraction_zeros r1 Hr1) as (nf & r2 & E' & Hnf).
  rewrite E'.
  destruct (Z.eqb_spec (ni + nf) 0); [lia|]. reflexivity.
Qed.

(** X12. With an accumulator held and a division pending, an operator key
    pressed on a zero in any form it can be typed in (["0"], ["0."],
    ["0.000"]) records "Cannot divide by zero" and changes nothing
    else. *)
Theorem typed_zero_divisor_is_rejected
    (st : State) (nextOperation : Operation) (previous : number) :
  previousValue st = Some previous ->
  operation st = Some Divide ->
  zero_numeral (display st) = true ->
  dispatch (performOperation nextOperation) st
  = {| display := display st;
       previousValue := previousValue st;
       operation := operation st;
       waitingForOperand := waitingForOperand st;
       error := Some "Cannot divide by zero" |}.
Proof.
  intros Hp Ho Hz.
  rewrite (performOperation_divide_by_zero st nextOperation previous Hp Ho).
  - reflexivity.
  - rewrite (parseFloat_zero_numeral _ Hz). reflexivity.
Qed.

Lemma typed_zero_divisor_is_rejected_witness :
  let st := run initial [DigitEvent D7; OperationEvent (Some Divide);
                         DigitEvent D0; DecimalEvent; DigitEvent D0;
                         DigitEvent D0] in
  (previousValue st = Some (of_Z 7)
   /\ operation st = Some Divide
   /\ zero_numeral (display st) = true)
  /\ dispatch (performOperation (Some Plus)) st
     = {| display := "0.00";
          previousValue := Some (of_Z 7);
          operation := Some Divide;
          waitingForOperand := false;
          error := Some "Cannot divide by zero" |}.
Proof.
  split; [repeat split|].
  apply (typed_zero_divisor_is_rejected
           (run initial [DigitEvent D7; OperationEvent (Some Divide);
                         DigitEvent D0; DecimalEvent; DigitEvent D0;
                         DigitEvent D0])
           (Some Plus) (of_Z 7));
    reflexivity.
Defined.

(* ================================================================== *)
(** ** Typing leaves the calculation alone                              *)
(* ================================================================== *)

(** X13. Digits and decimal points, in any number and order, never change
    the accumulator or the pending operation. *)
Theorem typing_keeps_pending_calculation (evs : list Event) (st : State) :
  Forall is_typing evs ->
  previousValue (run st evs) = previousValue st
  /\ operation (run st evs) = operation st.
Proof.
  revert st. induction evs as [|ev evs IH]; intros st H; [auto|].
  inversion H as [|? ? Hev H']; subst. simpl.
  destruct (IH (step st ev) H') as [-> ->].
  destruct ev as [d| |nextOperation| |]; try contradiction Hev.
  - apply inputNumber_frame.
  - apply inputDecimal_frame.
Qed.

Lemma typing_keeps_pending_calculation_witness :
  let st := run initial five_plus in
  let evs := [DigitEvent D1; DecimalEvent; DecimalEvent; DigitEvent D5] in
  Forall is_typing evs
  /\ previousValue (run st evs) = Some (of_Z 5)
  /\ operation (run st evs) = Some Plus.
Proof.
  assert (H : Forall is_typing
                [DigitEvent D1; DecimalEvent; DecimalEvent; DigitEvent D5])
    by (repeat constructor).
  split; [exact H|].
  exact (typing_keeps_pending_calculation _ (run initial five_plus) H).
Defined.

(* ================================================================== *)
(** ** Integers are computed exactly                                    *)
(* ================================================================== *)

Lemma Zdigits2_log2 (p : positive) :
  Zpos (digits2_pos p) = Z.log2 (Zpos p) + 1.
Proof.
  assert (H : forall q, digits2_pos q = Pos.size q)
    by (induction q; simpl; congruence).
  rewrite H. destruct p; simpl; lia.
Qed.

Lemma iter_xO_pow2 (m k : positive) :
  Zpos (Pos.iter xO m k) = Zpos m * 2 ^ Zpos k.
Proof.
  induction k as [|k IH] using Pos.peano_ind.
  - simpl. lia.
  - rewrite Pos.iter_succ, Pos2Z.inj_xO, IH, Pos2Z.inj_succ, Z.pow_succ_r by lia.
    lia.
Qed.

Lemma iter_pos_iter {A : Type} (f : A -> A) (n : positive) (x : A) :
  iter_pos f n x = Pos.iter f x n.
Proof.
  revert x. induction n as [n IH|n IH|]; intros x; simpl.
  - rewrite !IH, <- !Pos.iter_swap. reflexivity.
  - rewrite !IH. reflexivity.
  - reflexivity.
Qed.

Lemma shr_exact (m k : positive) :
  iter_pos shr_1 k (Build_shr_record (Zpos (Pos.iter xO m k)) false false)
  = Build_shr_record (Zpos m) false false.
Proof.
  rewrite iter_pos_iter.
  induction k as [|k IH] using Pos.peano_ind.
  - reflexivity.
  - rewrite !Pos.iter_succ, <- Pos.iter_swap. exact IH.
Qed.

Lemma fexp_eq (z : Z) : fexp prec emax z = Z.max (z - 53) (-1074).
Proof. reflexivity. Qed.

Lemma log2_scaled (n : positive) (k : Z) :
  0 <= k -> Z.log2 (Zpos n * 2 ^ k) = k + Z.log2 (Zpos n).
Proof. intros H. apply Z.log2_mul_pow2; lia. Qed.

(** a mantissa of 53 bits is left as it is *)
Lemma binary_round_aux_canonical (s : bool) (m : positive) (e : Z) :
  Z.log2 (Zpos m) = 52 -> -1074 <= e <= 971 ->
  binary_round_aux prec emax s (Zpos m) e loc_Exact = S754_finite s m e.
Proof.
  intros Hm He. unfold binary_round_aux, shr_fexp.
  cbn [Zdigits2]. rewrite Zdigits2_log2, Hm, fexp_eq.
  replace (Z.max (52 + 1 + e - 53) (-1074) - e) with 0 by lia.
  cbn [shr shr_record_of_loc shr_m loc_of_shr_record round_nearest_even
       Zdigits2].
  rewrite Zdigits2_log2, Hm, fexp_eq.
  replace (Z.max (52 + 1 + e - 53) (-1074) - e) with 0 by lia.
  cbn [shr shr_record_of_loc shr_m].
  replace (e <=? emax - prec) with true; [reflexivity|].
  symmetry. apply Z.leb_le. unfold emax, prec. lia.
Qed.

(** an integer [n] below [2 ^ 53], written with at least 53 bits as
    [M * 2 ^ e], rounds to itself *)
Lemma binary_round_aux_integer (s : bool) (M n : positive) (e : Z) :
  e <= 0 -> Zpos M = Zpos n * 2 ^ (- e) ->
  Z.log2 (Zpos n) <= 52 -> 52 - Z.log2 (Zpos n) <= - e -> -1000 <= e ->
  binary_round_aux prec emax s (Zpos M) e loc_Exact = repr s n.
Proof.
  intros He HM Hn Hbits Hlow.
  set (L := Z.log2 (Zpos n)) in *.
  assert (HL : 0 <= L) by apply Z.log2_nonneg.
  set (m := Z.to_pos (Zpos n * 2 ^ (52 - L))).
  assert (Hm : Zpos m = Zpos n * 2 ^ (52 - L)).
  { unfold m. rewrite Z2Pos.id; [reflexivity|]. apply Z.mul_pos_pos; [lia|].
    apply Z.pow_pos_nonneg; lia. }
  assert (Hlm : Z.log2 (Zpos m) = 52).
  { rewrite Hm, log2_scaled by lia. fold L. lia. }
  unfold repr. fold L. fold m.
  destruct (Z.eq_dec (- e) (52 - L)) as [E|E].
  - assert (M = m) by (apply Pos2Z.inj; rewrite HM, Hm, E; reflexivity).
    subst M. replace e with (L - 52) by lia.
    apply binary_round_aux_canonical; [exact Hlm|lia].
  - set (k := Z.to_pos (- e - (52 - L))).
    assert (Hk : Zpos k = - e - (52 - L)) by (unfold k; rewrite Z2Pos.id; lia).
    assert (HMk : M = Pos.iter xO m k).
    { apply Pos2Z.inj. rewrite iter_xO_pow2, HM, Hm, Hk, <- Z.mul_assoc,
        <- Z.pow_add_r by lia.
      f_equal. f_equal. lia. }
    assert (Hlog : Z.log2 (Zpos (Pos.iter xO m k)) = 52 + Zpos k).
    { rewrite iter_xO_pow2, log2_scaled, Hlm by lia. lia. }
    clear HM. subst M.
    unfold binary_round_aux, shr_fexp. cbn [Zdigits2].
    rewrite Zdigits2_log2, Hlog, fexp_eq.
    replace (Z.max (52 + Zpos k + 1 + e - 53) (-1074) - e) with (Zpos k)
      by lia.
    cbn [shr shr_record_of_loc]. rewrite shr_exact.
    cbn [shr_m loc_of_shr_record round_nearest_even Zdigits2].
    rewrite Zdigits2_log2, Hlm, fexp_eq.
    replace (Z.max (52 + 1 + (e + Zpos k) - 53) (-1074) - (e + Zpos k))
      with 0 by lia.
    cbn [shr shr_record_of_loc shr_m].
    replace (e + Zpos k <=? emax - prec) with true.
    + f_equal. lia.
    + symmetry. apply Z.leb_le. unfold emax, prec. lia.
Qed.


Lemma shl_align_value (m : positive) (e e' : Z) :
  e' <= e ->
  Zpos (fst (shl_align m e e')) = Zpos m * 2 ^ (e - e')
  /\ snd (shl_align m e e') = e'.
Proof.
  intros H. unfold shl_align.
  destruct (e' - e) as [|d|d] eqn:E; cbn [fst snd].
  - replace (e - e') with 0 by lia. split; lia.
  - lia.
  - rewrite iter_xO_pow2. replace (e - e') with (Zpos d) by lia.
    split; reflexivity.
Qed.

Lemma binary_round_integer (s : bool) (M n : positive) (e : Z) :
  e <= 0 -> Zpos M = Zpos n * 2 ^ (- e) ->
  Z.log2 (Zpos n) <= 52 -> -1000 <= e ->
  binary_round prec emax s M e = repr s n.
Proof.
  intros He HM Hn Hlow.
  assert (HL : 0 <= Z.log2 (Zpos n)) by apply Z.log2_nonneg.
  unfold binary_round. rewrite Zdigits2_log2, HM, log2_scaled, fexp_eq by lia.
  replace (Z.max (- e + Z.log2 (Zpos n) + 1 + e - 53) (-1074))
    with (Z.log2 (Zpos n) - 52) by lia.
  destruct (Z_le_gt_dec (Z.log2 (Zpos n) - 52) e) as [Hle|Hgt].
  - destruct (shl_align_value M e (Z.log2 (Zpos n) - 52) Hle) as [Hv He'].
    destruct (shl_align M e (Z.log2 (Zpos n) - 52)) as [mz ez].
    cbn [fst snd] in Hv, He'. subst ez.
    apply binary_round_aux_integer; try lia.
    rewrite Hv, HM, <- Z.mul_assoc, <- Z.pow_add_r by lia.
    f_equal. f_equal. lia.
  - unfold shl_align.
    destruct (Z.log2 (Zpos n) - 52 - e) as [|d|d] eqn:E; try lia.
    apply binary_round_aux_integer; lia.
Qed.

Lemma log2_below (n : positive) : Zpos n < 2 ^ 53 -> Z.log2 (Zpos n) <= 52.
Proof.
  intros H. apply Z.lt_succ_r. change (Z.succ 52) with 53.
  apply Z.log2_lt_pow2; [lia|exact H].
Qed.

(** the integer [z], written [z * 2 ^ (- e)] with exponent [e], is
    normalised to [of_Z z] *)
Lemma binary_normalize_integer (z e : Z) :
  e <= 0 -> -1000 <= e -> Z.abs z < 2 ^ 53 ->
  binary_normalize prec emax (z * 2 ^ (- e)) e false = of_Z z.
Proof.
  intros He Hlow Hz.
  assert (Hp : 0 < 2 ^ (- e)) by (apply Z.pow_pos_nonneg; lia).
  assert (E0 : forall n, Zpos n = Zpos n * 2 ^ (- 0))
    by (intros n; change (2 ^ (- 0)) with 1; lia).
  destruct z as [|n|n].
  - reflexivity.
  - assert (Hn : Z.log2 (Zpos n) <= 52) by (apply log2_below; exact Hz).
    unfold of_Z. cbn [binary_normalize].
    rewrite (binary_round_integer false n n 0 ltac:(lia) (E0 n) Hn ltac:(lia)).
    destruct (Zpos n * 2 ^ (- e)) as [|M|M] eqn:E; try lia.
    cbn [binary_normalize].
    apply binary_round_integer; try lia.
  - assert (Hn : Z.log2 (Zpos n) <= 52) by (apply log2_below; exact Hz).
    unfold of_Z. cbn [binary_normalize].
    rewrite (binary_round_integer true n n 0 ltac:(lia) (E0 n) Hn ltac:(lia)).
    destruct (Zneg n * 2 ^ (- e)) as [|M|M] eqn:E; try lia.
    cbn [binary_normalize].
    apply binary_round_integer; try lia.
Qed.

Lemma repr_mantissa (n : positive) :
  Z.log2 (Zpos n) <= 52 ->
  Zpos (Z.to_pos (Zpos n * 2 ^ (52 - Z.log2 (Zpos n))))
  = Zpos n * 2 ^ (52 - Z.log2 (Zpos n))
  /\ Z.log2 (Zpos n * 2 ^ (52 - Z.log2 (Zpos n))) = 52.
Proof.
  intros H. split.
  - rewrite Z2Pos.id; [reflexivity|]. apply Z.mul_pos_pos; [lia|].
    apply Z.pow_pos_nonneg; lia.
  - rewrite log2_scaled by lia. lia.
Qed.

Lemma of_Z_repr (n : positive) :
  Zpos n < 2 ^ 53 ->
  of_Z (Zpos n) = repr false n /\ of_Z (Zneg n) = repr true n.
Proof.
  intros H. pose proof (log2_below n H) as Hn.
  assert (E0 : Zpos n = Zpos n * 2 ^ (- 0))
    by (change (2 ^ (- 0)) with 1; lia).
  unfold of_Z. cbn [binary_normalize].
  split; apply binary_round_integer; try lia; exact E0.
Qed.

Lemma mul_repr (s : bool) (a b : positive) :
  Zpos (a * b) < 2 ^ 53 ->
  mul (repr s a) (repr false b) = repr s (a * b).
Proof.
  intros H. pose proof (log2_below _ H) as Hab.
  pose proof (Z.log2_mul_below (Zpos a) (Zpos b) ltac:(lia) ltac:(lia))
    as Hlow.
  pose proof (Z.log2_nonneg (Zpos a)) as Ha0.
  pose proof (Z.log2_nonneg (Zpos b)) as Hb0.
  rewrite <- Pos2Z.inj_mul in Hlow.
  destruct (repr_mantissa a ltac:(lia)) as [Ma _].
  destruct (repr_mantissa b ltac:(lia)) as [Mb _].
  unfold mul, SFmul, repr. rewrite xorb_false_r.
  apply binary_round_aux_integer; try lia.
  rewrite Pos2Z.inj_mul, Ma, Mb, Pos2Z.inj_mul.
  replace (- (Z.log2 (Zpos a) - 52 + (Z.log2 (Zpos b) - 52)))
    with ((52 - Z.log2 (Zpos a)) + (52 - Z.log2 (Zpos b))) by lia.
  rewrite Z.pow_add_r by lia. ring.
Qed.

Lemma Math_round_repr (s : bool) (K : positive) :
  Zpos K < 2 ^ 53 -> Math_round (repr s K) = repr s K.
Proof.
  intros H. pose proof (log2_below _ H) as HK.
  pose proof (Z.log2_nonneg (Zpos K)) as HK0.
  destruct (repr_mantissa K HK) as [MK _].
  unfold Math_round, repr.
  destruct (Z.leb_spec 0 (Z.log2 (Zpos K) - 52)) as [Hle|Hlt];
    [reflexivity|].
  set (j := 52 - Z.log2 (Zpos K)) in *.
  replace (- (Z.log2 (Zpos K) - 52)) with j by lia.
  replace (1 - (Z.log2 (Zpos K) - 52)) with (j + 1) by lia.
  assert (Hj : 0 < 2 ^ j) by (apply Z.pow_pos_nonneg; lia).
  assert (E : Z.shiftr (2 * cond_Zopp s (Zpos (Z.to_pos (Zpos K * 2 ^ j)))
                        + 2 ^ j) (j + 1)
              = cond_Zopp s (Zpos K)).
  { rewrite Z.shiftr_div_pow2, MK, Z.pow_add_r by lia.
    change (2 ^ 1) with 2.
    replace (2 * cond_Zopp s (Zpos K * 2 ^ j) + 2 ^ j)
      with ((2 * cond_Zopp s (Zpos K) + 1) * 2 ^ j)
      by (destruct s; unfold cond_Zopp; ring).
    rewrite (Z.mul_comm _ (2 ^ j)), Z.div_mul_cancel_l by lia.
    symmetry. apply Z.div_unique with (r := 1); lia. }
  rewrite E.
  assert (E0 : Zpos K = Zpos K * 2 ^ (- 0))
    by (change (2 ^ (- 0)) with 1; lia).
  destruct s; cbn [cond_Zopp Z.opp binary_normalize];
    apply binary_round_integer; try lia; exact E0.
Qed.

Lemma div_repr (s : bool) (n B : positive) :
  Zpos (n * B) < 2 ^ 53 ->
  div (repr s (n * B)) (repr false B) = repr s n.
Proof.
  intros H. pose proof (log2_below _ H) as HN.
  assert (Hn : Z.log2 (Zpos n) <= 52).
  { apply log2_below. rewrite Pos2Z.inj_mul in H. nia. }
  assert (HB : Z.log2 (Zpos B) <= 52).
  { apply log2_below. rewrite Pos2Z.inj_mul in H. nia. }
  pose proof (Z.log2_mul_above (Zpos n) (Zpos B) ltac:(lia) ltac:(lia))
    as Habove.
  pose proof (Z.log2_mul_below (Zpos n) (Zpos B) ltac:(lia) ltac:(lia))
    as Hbelow.
  rewrite <- Pos2Z.inj_mul in Habove, Hbelow.
  pose proof (Z.log2_nonneg (Zpos n)) as Hn0.
  pose proof (Z.log2_nonneg (Zpos B)) as HB0.
  destruct (repr_mantissa (n * B) HN) as [MN LN].
  destruct (repr_mantissa B HB) as [MB LB].
  rewrite <- MN in LN. rewrite <- MB in LB.
  unfold div, SFdiv, repr, SFdiv_core_binary. cbn [Zdigits2].
  rewrite !Zdigits2_log2, LN, LB, fexp_eq.
  set (LNv := Z.log2 (Zpos (n * B))) in *.
  set (LBv := Z.log2 (Zpos B)) in *.
  set (Ln := Z.log2 (Zpos n)) in *.
  replace (Z.min (Z.max (52 + 1 + (LNv - 52) - (52 + 1 + (LBv - 52)) - 53)
                        (-1074)) (LNv - 52 - (LBv - 52)))
    with (LNv - LBv - 53) by lia.
  replace (LNv - 52 - (LBv - 52) - (LNv - LBv - 53)) with 53 by lia.
  set (j := 53 - LNv + LBv).
  assert (Hj0 : 0 <= j) by (unfold j; lia).
  assert (Hq : Z.shiftl (Zpos (Z.to_pos (Zpos (n * B) * 2 ^ (52 - LNv)))) 53
               = Zpos (Z.to_pos (Zpos B * 2 ^ (52 - LBv)))
                 * (Zpos n * 2 ^ j) + 0).
  { rewrite Z.shiftl_mul_pow2, MN, MB, Pos2Z.inj_mul by lia.
    replace (Zpos n * Zpos B * 2 ^ (52 - LNv) * 2 ^ 53)
      with (Zpos n * Zpos B * (2 ^ (52 - LNv) * 2 ^ 53)) by ring.
    rewrite <- Z.pow_add_r by lia.
    replace (52 - LNv + 53) with ((52 - LBv) + j) by (unfold j; lia).
    rewrite Z.pow_add_r by lia. ring. }
  pose proof (Z_div_mod (Z.shiftl (Zpos (Z.to_pos (Zpos (n * B)
                                                   * 2 ^ (52 - LNv)))) 53)
                        (Zpos (Z.to_pos (Zpos B * 2 ^ (52 - LBv))))
                        ltac:(lia)) as Hdm.
  destruct (Z.div_eucl _ _) as [q r]. destruct Hdm as [Hdm Hr].
  rewrite Hq in Hdm.
  assert (Hr0 : 0 <= 0 < Zpos (Z.to_pos (Zpos B * 2 ^ (52 - LBv)))) by lia.
  destruct (Z.div_mod_unique _ _ _ _ _ (or_introl Hr0) (or_introl Hr) Hdm)
    as [Eq Er].
  subst q r.
  assert (Hloc : new_location (Zpos (Z.to_pos (Zpos B * 2 ^ (52 - LBv)))) 0
                 = loc_Exact).
  { unfold new_location. destruct (Z.even _); reflexivity. }
  rewrite Hloc, xorb_false_r.
  assert (Hpos : 0 < Zpos n * 2 ^ j)
    by (apply Z.mul_pos_pos; [lia|apply Z.pow_pos_nonneg; lia]).
  destruct (Zpos n * 2 ^ j) as [|M|M] eqn:EM; try lia.
  apply binary_round_aux_integer; try (unfold j in *; lia).
  rewrite <- EM. f_equal. f_equal. unfold j. lia.
Qed.

Lemma aligned_mantissa (n : positive) (ez : Z) :
  Z.log2 (Zpos n) <= 52 -> ez <= Z.log2 (Zpos n) - 52 ->
  Zpos (fst (shl_align (Z.to_pos (Zpos n * 2 ^ (52 - Z.log2 (Zpos n))))
                       (Z.log2 (Zpos n) - 52) ez))
  = Zpos n * 2 ^ (- ez).
Proof.
  intros Hn He. pose proof (Z.log2_nonneg (Zpos n)) as H0.
  destruct (shl_align_value (Z.to_pos (Zpos n * 2 ^ (52 - Z.log2 (Zpos n))))
              (Z.log2 (Zpos n) - 52) ez He) as [-> _].
  destruct (repr_mantissa n Hn) as [-> _].
  rewrite <- Z.mul_assoc, <- Z.pow_add_r by lia. f_equal. f_equal. lia.
Qed.

Lemma add_repr (a b : positive) :
  Zpos a + Zpos b < 2 ^ 53 ->
  add (repr false a) (repr false b) = of_Z (Zpos a + Zpos b).
Proof.
  intros H.
  assert (Ha : Z.log2 (Zpos a) <= 52) by (apply log2_below; lia).
  assert (Hb : Z.log2 (Zpos b) <= 52) by (apply log2_below; lia).
  pose proof (Z.log2_nonneg (Zpos a)) as Ha0.
  pose proof (Z.log2_nonneg (Zpos b)) as Hb0.
  unfold add, SFadd, repr.
  set (ez := Z.min (Z.log2 (Zpos a) - 52) (Z.log2 (Zpos b) - 52)).
  rewrite !aligned_mantissa by (unfold ez; lia).
  cbv [cond_Zopp]. rewrite <- Z.mul_add_distr_r.
  apply binary_normalize_integer; unfold ez; lia.
Qed.

Lemma sub_repr (a b : positive) :
  Zpos a < 2 ^ 53 -> Zpos b < 2 ^ 53 ->
  sub (repr false a) (repr false b) = of_Z (Zpos a - Zpos b).
Proof.
  intros Ha' Hb'.
  pose proof (log2_below a Ha') as Ha. pose proof (log2_below b Hb') as Hb.
  pose proof (Z.log2_nonneg (Zpos a)) as Ha0.
  pose proof (Z.log2_nonneg (Zpos b)) as Hb0.
  unfold sub, SFsub, repr.
  set (ez := Z.min (Z.log2 (Zpos a) - 52) (Z.log2 (Zpos b) - 52)).
  rewrite !aligned_mantissa by (unfold ez; lia).
  cbv [cond_Zopp]. rewrite <- Z.mul_sub_distr_r.
  apply binary_normalize_integer; unfold ez; lia.
Qed.

Lemma of_Z_nat_cases (a : Z) :
  0 <= a < 2 ^ 53 ->
  (a = 0 /\ of_Z a = pos_zero)
  \/ (exists n, a = Zpos n /\ of_Z a = repr false n).
Proof.
  intros H. destruct a as [|n|n]; [left; split; reflexivity| |lia].
  right. exists n. split; [reflexivity|]. apply of_Z_repr. lia.
Qed.

Lemma of_Z_finite (z : Z) : Z.abs z < 2 ^ 53 -> isFinite (of_Z z) = true.
Proof.
  intros H. destruct z as [|n|n]; [reflexivity| |].
  - rewrite (proj1 (of_Z_repr n H)). reflexivity.
  - rewrite (proj2 (of_Z_repr n H)). reflexivity.
Qed.

Lemma or_else_of_Z (a : Z) :
  0 <= a < 2 ^ 53 -> or_else (of_Z a) pos_zero = of_Z a.
Proof.
  intros H. destruct (of_Z_nat_cases a H) as [[-> ->]|(n & -> & ->)];
    reflexivity.
Qed.

Lemma add_nat (a b : Z) :
  0 <= a -> 0 <= b -> a + b < 2 ^ 53 ->
  add (of_Z a) (of_Z b) = of_Z (a + b).
Proof.
  intros Ha Hb H.
  destruct (of_Z_nat_cases a ltac:(lia)) as [[-> Ea]|(n & -> & Ea)];
    destruct (of_Z_nat_cases b ltac:(lia)) as [[-> Eb]|(m & -> & Eb)].
  - reflexivity.
  - rewrite Ea. change (0 + Zpos m) with (Zpos m). rewrite Eb. reflexivity.
  - rewrite Eb, Z.add_0_r, Ea. reflexivity.
  - rewrite Ea, Eb. apply add_repr. exact H.
Qed.

Lemma sub_nat (a b : Z) :
  0 <= a < 2 ^ 53 -> 0 <= b < 2 ^ 53 ->
  sub (of_Z a) (of_Z b) = of_Z (a - b).
Proof.
  intros Ha Hb.
  destruct (of_Z_nat_cases a Ha) as [[-> Ea]|(n & -> & Ea)];
    destruct (of_Z_nat_cases b Hb) as [[-> Eb]|(m & -> & Eb)].
  - reflexivity.
  - rewrite Ea, Eb. change (0 - Zpos m) with (Zneg m).
    rewrite (proj2 (of_Z_repr m ltac:(lia))). reflexivity.
  - rewrite Eb, Z.sub_0_r, Ea. reflexivity.
  - rewrite Ea, Eb. apply sub_repr; lia.
Qed.

Lemma mul_nat (a b : Z) :
  0 <= a < 2 ^ 53 -> 0 <= b < 2 ^ 53 -> a * b < 2 ^ 53 ->
  mul (of_Z a) (of_Z b) = of_Z (a * b).
Proof.
  intros Ha Hb H.
  destruct (of_Z_nat_cases a Ha) as [[-> Ea]|(n & -> & Ea)];
    destruct (of_Z_nat_cases b Hb) as [[-> Eb]|(m & -> & Eb)].
  - reflexivity.
  - rewrite Ea, Eb. reflexivity.
  - rewrite Eb, Z.mul_0_r, Ea. reflexivity.
  - rewrite Ea, Eb, mul_repr by exact H.
    symmetry. apply (of_Z_repr (n * m)). exact H.
Qed.

Lemma round9_integer (z : Z) :
  Z.abs z * 1000000000 < 2 ^ 53 -> round9 (of_Z z) = of_Z z.
Proof.
  intros H.
  assert (HB : billion = repr false 1000000000)
    by (apply (of_Z_repr 1000000000); reflexivity).
  unfold round9. rewrite HB.
  destruct z as [|n|n]; [reflexivity| |].
  - assert (Hn : Zpos (n * 1000000000) < 2 ^ 53)
      by (rewrite Pos2Z.inj_mul; exact H).
    rewrite (proj1 (of_Z_repr n ltac:(lia))).
    rewrite mul_repr, Math_round_repr, div_repr by exact Hn. reflexivity.
  - assert (Hn : Zpos (n * 1000000000) < 2 ^ 53)
      by (rewrite Pos2Z.inj_mul; exact H).
    rewrite (proj2 (of_Z_repr n ltac:(lia))).
    rewrite mul_repr, Math_round_repr, div_repr by exact Hn. reflexivity.
Qed.

Lemma operate_naturals (op : Operator) (a b : Z) :
  op <> Divide ->
  0 <= a < 2 ^ 53 -> 0 <= b < 2 ^ 53 ->
  Z.abs (exact_integer op a b) < 2 ^ 53 ->
  operate op (of_Z a) (of_Z b) = of_Z (exact_integer op a b).
Proof.
  intros Hop Ha Hb H. destruct op; cbn [operate exact_integer] in *.
  - apply add_nat; lia.
  - apply sub_nat; lia.
  - apply mul_nat; lia.
  - contradiction Hop. reflexivity.
Qed.

Lemma type_digits_fresh (d : Digit) (ds : list Digit) (st : State) :
  waitingForOperand st = true ->
  run st (map DigitEvent (d :: ds))
  = mkState (entered_from_zero (d :: ds)) (previousValue st) (operation st)
            false None.
Proof.
  intros Hw.
  set (st0 := mkState "0" (previousValue st) (operation st) false None).
  assert (E : step st (DigitEvent d) = step st0 (DigitEvent d)).
  { unfold step, dispatch. simpl handler_of. unfold inputNumber.
    rewrite Hw. destruct d; reflexivity. }
  change (run st (map DigitEvent (d :: ds)))
    with (run (step st (DigitEvent d)) (map DigitEvent ds)).
  rewrite E.
  change (run (step st0 (DigitEvent d)) (map DigitEvent ds))
    with (run st0 (map DigitEvent (d :: ds))).
  pose proof (type_digits_from_zero (d :: ds) st0 eq_refl eq_refl) as Hd.
  destruct (type_digits_frame (d :: ds) st0 eq_refl) as (Hp & Ho & Hw' & He).
  destruct (run st0 (map DigitEvent (d :: ds))) as [dsp p o w e].
  simpl in *. subst. reflexivity.
Qed.

Lemma digits_value_nonneg (ds : list Digit) : 0 <= digits_value ds.
Proof. apply digits_value_from_nonneg. lia. Qed.

(* ================================================================== *)
(** ** The string of an integer                                        *)
(* ================================================================== *)

(** [String(x)] of an integer [x] below [2 ^ 52] in magnitude is its
    decimal numeral: the shortest digits that read back as [x] are the
    digits of [x] without its trailing zeros. *)

Lemma string_of_uint_revapp (l acc : Decimal.uint) :
  NilEmpty.string_of_uint (Decimal.revapp l acc)
  = NilEmpty.string_of_uint (Decimal.revapp l Decimal.Nil)
    ++ NilEmpty.string_of_uint acc.
Proof.
  revert acc. induction l as [|l IH|l IH|l IH|l IH|l IH|l IH|l IH|l IH|l IH|l IH];
    intros acc; [reflexivity|..];
    cbn [Decimal.revapp]; rewrite IH, (IH (_ Decimal.Nil)), string_app_assoc;
    reflexivity.
Qed.

Lemma string_of_Z_pos (p : positive) :
  string_of_Z (Zpos p) = NilEmpty.string_of_uint (Pos.to_uint p).
Proof.
  unfold string_of_Z. cbn [Z.to_N N.to_uint].
  pose proof (DecimalPos.Unsigned.to_uint_nonnil p) as H.
  destruct (Pos.to_uint p); [contradiction H; reflexivity|..]; reflexivity.
Qed.

Lemma string_of_Z_tenfold (p : positive) :
  string_of_Z (Zpos (10 * p)) = string_of_Z (Zpos p) ++ "0".
Proof.
  rewrite !string_of_Z_pos. unfold Pos.to_uint, Decimal.rev.
  pose proof (DecimalPos.Unsigned.to_ldec_tenfold p) as H.
  cbn [DecimalPos.Unsigned.to_lu N.mul] in H.
  rewrite H. cbn [Decimal.revapp]. apply string_of_uint_revapp.
Qed.

Lemma zeros_snoc (t : nat) : zeros t ++ "0" = String "0" (zeros t).
Proof. induction t as [|t IH]; [reflexivity|]. simpl. rewrite IH. reflexivity. Qed.

Lemma string_of_Z_pow10 (s : positive) (t : nat) :
  string_of_Z (Zpos s * 10 ^ Z.of_nat t) = string_of_Z (Zpos s) ++ zeros t.
Proof.
  induction t as [|t IH].
  - rewrite Z.mul_1_r. symmetry. apply string_app_nil.
  - rewrite Nat2Z.inj_succ, Z.pow_succ_r by lia.
    assert (Hpos : 0 < Zpos s * 10 ^ Z.of_nat t)
      by (apply Z.mul_pos_pos; [lia|apply Z.pow_pos_nonneg; lia]).
    destruct (Zpos s * 10 ^ Z.of_nat t) as [|q|q] eqn:E; try lia.
    replace (Zpos s * (10 * 10 ^ Z.of_nat t)) with (Zpos (10 * q)) by lia.
    rewrite string_of_Z_tenfold, IH, string_app_assoc, zeros_snoc.
    reflexivity.
Qed.

(** *** The decimal exponent *)

Lemma start_checked : forallb start_check (seq 0 53) = true.
Proof. vm_compute. reflexivity. Qed.

Lemma start_of_bounds (L : Z) :
  0 <= L <= 52 ->
  0 <= start_of L /\ 10 ^ start_of L <= 2 ^ L
  /\ 2 ^ (L + 1) <= 10 ^ (start_of L + 8).
Proof.
  intros H.
  pose proof (proj1 (forallb_forall start_check (seq 0 53)) start_checked
                (Z.to_nat L)) as C.
  assert (I : In (Z.to_nat L) (seq 0 53)) by (apply in_seq; lia).
  specialize (C I). unfold start_check in C.
  rewrite Z2Nat.id in C by lia.
  apply andb_true_iff in C as [C C3]. apply andb_true_iff in C as [C1 C2].
  apply Z.leb_le in C1, C2, C3. auto.
Qed.

Lemma below_pow10_integer (n : positive) (j k : Z) :
  0 <= j -> 0 <= k ->
  below_pow10 (Zpos n * 2 ^ j) (2 ^ j) k = (Zpos n <? 10 ^ k).
Proof.
  intros Hj Hk. unfold below_pow10.
  destruct (Z.leb_spec 0 k); [|lia].
  assert (Hp : 0 < 2 ^ j) by (apply Z.pow_pos_nonneg; lia).
  destruct (Z.ltb_spec (Zpos n) (10 ^ k));
    destruct (Z.ltb_spec (Zpos n * 2 ^ j) (10 ^ k * 2 ^ j)); try reflexivity;
    nia.
Qed.

Lemma decimal_exponent_integer (n : positive) (j : Z) (fuel : nat) (k0 : Z) :
  0 <= j -> 0 <= k0 ->
  10 ^ k0 <= Zpos n -> Zpos n < 10 ^ (k0 + Z.of_nat fuel) ->
  let k := decimal_exponent (Zpos n * 2 ^ j) (2 ^ j) fuel k0 in
  k0 < k /\ 10 ^ (k - 1) <= Zpos n < 10 ^ k.
Proof.
  intros Hj. revert k0.
  induction fuel as [|fuel IH]; intros k0 Hk0 Hlo Hhi; cbv zeta.
  - rewrite Z.add_0_r in Hhi. lia.
  - cbn [decimal_exponent]. rewrite below_pow10_integer by lia.
    destruct (Z.ltb_spec (Zpos n) (10 ^ k0)); [lia|].
    destruct (Z_lt_le_dec (Zpos n) (10 ^ (k0 + 1))) as [Hlt|Hge].
    + assert (E : decimal_exponent (Zpos n * 2 ^ j) (2 ^ j) fuel (k0 + 1)
                  = k0 + 1).
      { destruct fuel; cbn [decimal_exponent]; [reflexivity|].
        rewrite below_pow10_integer by lia.
        destruct (Z.ltb_spec (Zpos n) (10 ^ (k0 + 1))); [reflexivity|lia]. }
      rewrite E. replace (k0 + 1 - 1) with k0 by lia. lia.
    + specialize (IH (k0 + 1) ltac:(lia) Hge).
      rewrite Nat2Z.inj_succ in Hhi.
      replace (k0 + 1 + Z.of_nat fuel) with (k0 + Z.succ (Z.of_nat fuel)) in IH
        by lia.
      specialize (IH Hhi). cbv zeta in IH. lia.
Qed.

(** *** Which decimals read back as an integer *)

Lemma repr_inj (a b : positive) :
  Z.log2 (Zpos a) <= 52 -> Z.log2 (Zpos b) <= 52 ->
  SFcompare (repr false a) (repr false b) = Some Eq -> a = b.
Proof.
  intros Ha Hb. unfold repr.
  destruct (repr_mantissa a Ha) as [Ma _].
  destruct (repr_mantissa b Hb) as [Mb _].
  set (ma := Z.to_pos (Zpos a * 2 ^ (52 - Z.log2 (Zpos a)))) in *.
  set (mb := Z.to_pos (Zpos b * 2 ^ (52 - Z.log2 (Zpos b)))) in *.
  unfold SFcompare.
  destruct (Z.compare_spec (Z.log2 (Zpos a) - 52) (Z.log2 (Zpos b) - 52))
    as [E|E|E]; intros H; try discriminate H.
  assert (Hm : Pos.compare ma mb = Eq) by (unfold Pos.compare; congruence).
  apply Pos.compare_eq in Hm. rewrite Hm, Mb in Ma.
  replace (Z.log2 (Zpos b)) with (Z.log2 (Zpos a)) in Ma by lia.
  apply Z.mul_reg_r in Ma; [lia|].
  apply Z.neq_sym, Z.lt_neq, Z.pow_pos_nonneg; lia.
Qed.

Lemma repr_compare_refl (a : positive) :
  SFcompare (repr false a) (repr false a) = Some Eq.
Proof.
  unfold repr, SFcompare. rewrite Z.compare_refl.
  change (Pos.compare_cont Eq ?x ?y) with (Pos.compare x y).
  rewrite Pos.compare_refl. reflexivity.
Qed.

Lemma of_decimal_natural (c : positive) (p : Z) :
  0 <= p -> Zpos c * 10 ^ p < 2 ^ 53 ->
  of_decimal false (Zpos c) p = repr false (Z.to_pos (Zpos c * 10 ^ p)).
Proof.
  intros Hp H. unfold of_decimal.
  destruct (Z.leb_spec 0 p); [|lia].
  assert (H10 : 0 < 10 ^ p) by (apply Z.pow_pos_nonneg; lia).
  assert (E : Zpos (c * Z.to_pos (10 ^ p)) = Zpos c * 10 ^ p)
    by (rewrite Pos2Z.inj_mul, Z2Pos.id by lia; reflexivity).
  assert (Hpos : 0 < Zpos c * 10 ^ p) by (apply Z.mul_pos_pos; lia).
  apply binary_round_integer; try lia.
  apply log2_below. rewrite (Z2Pos.id _ Hpos). exact H.
Qed.

Lemma log2_below_52 (n : positive) :
  Zpos n < 2 ^ 52 -> 0 <= Z.log2 (Zpos n) <= 51.
Proof.
  intros Hn. split; [apply Z.log2_nonneg|].
  apply Z.lt_succ_r. change (Z.succ 51) with 52.
  apply Z.log2_lt_pow2; [lia|exact Hn].
Qed.

Lemma scaled_floor_integer (n : positive) (p : Z) :
  Zpos n < 2 ^ 52 -> 0 <= p ->
  scaled_floor (integer_num n) (integer_den n) p = Zpos n / 10 ^ p.
Proof.
  intros Hn Hp. unfold scaled_floor, integer_num, integer_den.
  destruct (Z.leb_spec 0 p); [|lia].
  pose proof (log2_below_52 n Hn).
  assert (H2 : 0 < 2 ^ (52 - Z.log2 (Zpos n)))
    by (apply Z.pow_pos_nonneg; lia).
  assert (H10 : 0 < 10 ^ p) by (apply Z.pow_pos_nonneg; lia).
  rewrite (Z.mul_comm (Zpos n)), Z.div_mul_cancel_l by lia. reflexivity.
Qed.

Lemma reads_back_sound (n : positive) (c p : Z) :
  Zpos n < 2 ^ 52 ->
  0 < c -> 0 <= p -> c * 10 ^ p < 2 ^ 53 ->
  reads_back (repr false n) c p = true -> c * 10 ^ p = Zpos n.
Proof.
  intros Hn Hc Hp Hb. unfold reads_back.
  destruct c as [|c|c]; try lia.
  rewrite of_decimal_natural by assumption.
  assert (H10 : 0 < 10 ^ p) by (apply Z.pow_pos_nonneg; lia).
  assert (Hpos : 0 < Zpos c * 10 ^ p) by (apply Z.mul_pos_pos; lia).
  destruct (SFcompare _ _) as [[| |]|] eqn:E; try discriminate.
  intros _. apply repr_inj in E.
  - rewrite <- E, (Z2Pos.id _ Hpos). reflexivity.
  - apply log2_below. rewrite (Z2Pos.id _ Hpos). exact Hb.
  - pose proof (log2_below_52 n Hn). lia.
Qed.

Lemma reads_back_exact (n : positive) :
  Zpos n < 2 ^ 52 -> reads_back (repr false n) (Zpos n) 0 = true.
Proof.
  intros Hn. unfold reads_back.
  assert (H53 : Zpos n * 10 ^ 0 < 2 ^ 53).
  { change (10 ^ 0) with 1. change (2 ^ 53) with (2 * 2 ^ 52). lia. }
  rewrite of_decimal_natural by (assumption || lia).
  change (10 ^ 0) with 1. rewrite Z.mul_1_r. cbn [Z.to_pos].
  rewrite repr_compare_refl. reflexivity.
Qed.

Lemma candidate_sound (n : positive) (D k s : Z) :
  Zpos n < 2 ^ 52 -> 10 ^ (D - 1) <= Zpos n ->
  1 <= k <= D ->
  candidate (repr false n) (integer_num n) (integer_den n) D k = Some s ->
  0 < s /\ s * 10 ^ (D - k) = Zpos n.
Proof.
  intros Hn HD Hk. unfold candidate. cbv zeta.
  rewrite scaled_floor_integer by (assumption || lia).
  assert (H10 : 0 < 10 ^ (D - k)) by (apply Z.pow_pos_nonneg; lia).
  assert (Hle : 10 ^ (D - k) <= Zpos n).
  { apply Z.le_trans with (10 ^ (D - 1)); [|exact HD].
    apply Z.pow_le_mono_r; lia. }
  set (lo := Zpos n / 10 ^ (D - k)).
  assert (Hlo : lo * 10 ^ (D - k) <= Zpos n < (lo + 1) * 10 ^ (D - k)).
  { pose proof (Z.div_mod (Zpos n) (10 ^ (D - k)) ltac:(lia)) as Hdm.
    pose proof (Z.mod_pos_bound (Zpos n) (10 ^ (D - k)) H10).
    fold lo in Hdm. nia. }
  assert (Hlo1 : 1 <= lo).
  { unfold lo. apply Z.div_le_lower_bound; lia. }
  assert (Hb : (lo + 1) * 10 ^ (D - k) < 2 ^ 53).
  { change (2 ^ 53) with (2 * 2 ^ 52). nia. }
  assert (Hb' : lo * 10 ^ (D - k) < 2 ^ 53) by nia.
  assert (S1 : reads_back (repr false n) lo (D - k) = true ->
               0 < lo /\ lo * 10 ^ (D - k) = Zpos n).
  { intros R. split; [lia|].
    apply reads_back_sound; try assumption; lia. }
  assert (S2 : reads_back (repr false n) (lo + 1) (D - k) = true ->
               0 < lo + 1 /\ (lo + 1) * 10 ^ (D - k) = Zpos n).
  { intros R. split; [lia|].
    apply reads_back_sound; try assumption; lia. }
  destruct (reads_back (repr false n) lo (D - k)) eqn:R1;
    destruct (reads_back (repr false n) (lo + 1) (D - k)) eqn:R2;
    try discriminate.
  - destruct (compare_candidates _ _ lo (D - k)); intros E;
      injection E as <-; auto.
    destruct (Z.even lo); auto.
  - intros E; injection E as <-; auto.
  - intros E; injection E as <-; auto.
Qed.

Lemma candidate_last (n : positive) (D : Z) :
  Zpos n < 2 ^ 52 ->
  exists s,
    candidate (repr false n) (integer_num n) (integer_den n) D D = Some s.
Proof.
  intros Hn. unfold candidate. cbv zeta. replace (D - D) with 0 by lia.
  rewrite scaled_floor_integer by (assumption || lia).
  change (10 ^ 0) with 1. rewrite Z.div_1_r, reads_back_exact by assumption.
  destruct (reads_back (repr false n) (Zpos n + 1) 0); eauto.
  destruct (compare_candidates _ _ (Zpos n) 0); eauto.
Qed.

Lemma shortest_integer (n : positive) (D : Z) (fuel : nat) (k : Z) :
  Zpos n < 2 ^ 52 -> 10 ^ (D - 1) <= Zpos n < 10 ^ D ->
  1 <= k <= D -> D - k < Z.of_nat fuel ->
  exists s k',
    shortest (repr false n) (integer_num n) (integer_den n) fuel D k
    = (s, k', D)
    /\ 1 <= k' <= D /\ 0 < s /\ s * 10 ^ (D - k') = Zpos n.
Proof.
  intros Hn HD. revert k.
  induction fuel as [|fuel IH]; intros k Hk Hf; [simpl in Hf; lia|].
  cbn [shortest].
  destruct (candidate _ _ _ D k) as [s|] eqn:C.
  - destruct (candidate_sound n D k s Hn ltac:(lia) Hk C) as [Hs Es].
    assert (Hlt : s < 10 ^ k).
    { assert (H10 : 0 < 10 ^ (D - k)) by (apply Z.pow_pos_nonneg; lia).
      assert (E : 10 ^ D = 10 ^ k * 10 ^ (D - k))
        by (rewrite <- Z.pow_add_r by lia; f_equal; lia).
      nia. }
    destruct (Z.eqb_spec s (10 ^ k)); [lia|].
    exists s, k. auto.
  - assert (k <> D).
    { intros ->. destruct (candidate_last n D Hn) as [s E]. congruence. }
    apply IH; [lia|]. rewrite Nat2Z.inj_succ in Hf. lia.
Qed.

Lemma toString_pos_integer (n : positive) :
  Zpos n < 2 ^ 52 ->
  toString_pos (Z.to_pos (Zpos n * 2 ^ (52 - Z.log2 (Zpos n))))
               (Z.log2 (Zpos n) - 52)
  = string_of_Z (Zpos n).
Proof.
  intros Hn.
  destruct (log2_below_52 n Hn) as [HL0 HL].
  destruct (repr_mantissa n ltac:(lia)) as [Mn Ln]. rewrite <- Mn in Ln.
  set (L := Z.log2 (Zpos n)) in *.
  unfold toString_pos.
  assert (Enum : Zpos (Z.to_pos (Zpos n * 2 ^ (52 - L))) * 2 ^ Z.max (L - 52) 0
                 = Zpos n * 2 ^ (52 - L)).
  { rewrite Mn, Z.max_r by lia. change (2 ^ 0) with 1. ring. }
  assert (Eden : 2 ^ Z.max (- (L - 52)) 0 = 2 ^ (52 - L))
    by (rewrite Z.max_l by lia; f_equal; lia).
  assert (Estart : decimal_exponent_start
                     (Z.to_pos (Zpos n * 2 ^ (52 - L))) (L - 52)
                   = start_of L).
  { unfold decimal_exponent_start, start_of.
    rewrite Zdigits2_log2, Ln. replace (52 + 1 + (L - 52) - 1) with L by lia.
    reflexivity. }
  rewrite Enum, Eden, Estart.
  change (S754_finite false (Z.to_pos (Zpos n * 2 ^ (52 - L))) (L - 52))
    with (repr false n).
  change (Zpos n * 2 ^ (52 - L)) with (integer_num n).
  change (2 ^ (52 - L)) with (integer_den n).
  destruct (start_of_bounds L ltac:(lia)) as (Hs0 & Hs1 & Hs2).
  pose proof (Z.log2_spec (Zpos n) ltac:(lia)) as Hspec. fold L in Hspec.
  replace (Z.succ L) with (L + 1) in Hspec by lia.
  pose proof (decimal_exponent_integer n (52 - L) 8 (start_of L)
                ltac:(lia) Hs0 ltac:(lia) ltac:(simpl Z.of_nat; lia)) as HD.
  cbv zeta in HD.
  change (Zpos n * 2 ^ (52 - L)) with (integer_num n) in HD.
  change (2 ^ (52 - L)) with (integer_den n) in HD.
  set (D := decimal_exponent (integer_num n) (integer_den n) 8
                             (start_of L)) in *.
  assert (HD16 : D <= 16).
  { destruct (Z_le_gt_dec D 16) as [|Hgt]; [assumption|].
    assert (10 ^ 16 <= 10 ^ (D - 1)) by (apply Z.pow_le_mono_r; lia).
    change (2 ^ 52) with 4503599627370496 in Hn.
    change (10 ^ 16) with 10000000000000000 in H. lia. }
  destruct (shortest_integer n D 17 1 Hn ltac:(lia)
              ltac:(lia) ltac:(simpl Z.of_nat; lia))
    as (s & k & E & Hk & Hs & Es).
  rewrite E.
  unfold layout.
  destruct (Z.leb_spec k D); [|lia]. destruct (Z.leb_spec D 21); [|lia].
  cbn [andb].
  destruct s as [|s|s]; try lia.
  rewrite <- Es. rewrite <- (Z2Nat.id (D - k)) at 2 by lia.
  symmetry. apply string_of_Z_pow10.
Qed.

Lemma toString_of_Z (z : Z) :
  Z.abs z < 2 ^ 52 -> toString (of_Z z) = integer_string z.
Proof.
  intros H. change (2 ^ 52) with 4503599627370496 in H.
  destruct z as [|n|n].
  - reflexivity.
  - rewrite (proj1 (of_Z_repr n ltac:(change (2 ^ 53) with 9007199254740992; lia))).
    unfold repr, toString. cbn [append].
    apply toString_pos_integer.
    change (2 ^ 52) with 4503599627370496. lia.
  - rewrite (proj2 (of_Z_repr n ltac:(change (2 ^ 53) with 9007199254740992; lia))).
    unfold repr, toString.
    rewrite toString_pos_integer
      by (change (2 ^ 52) with 4503599627370496; lia).
    reflexivity.
Qed.

(** *** Signed accumulators *)

Lemma add_repr_signed (s : bool) (a b : positive) :
  Zpos a < 2 ^ 53 -> Zpos b < 2 ^ 53 ->
  Z.abs (cond_Zopp s (Zpos a) + Zpos b) < 2 ^ 53 ->
  add (repr s a) (repr false b) = of_Z (cond_Zopp s (Zpos a) + Zpos b).
Proof.
  intros Ha' Hb' H.
  pose proof (log2_below a Ha') as Ha. pose proof (log2_below b Hb') as Hb.
  pose proof (Z.log2_nonneg (Zpos a)) as Ha0.
  pose proof (Z.log2_nonneg (Zpos b)) as Hb0.
  unfold add, SFadd, repr.
  set (ez := Z.min (Z.log2 (Zpos a) - 52) (Z.log2 (Zpos b) - 52)).
  rewrite !aligned_mantissa by (unfold ez; lia).
  replace (cond_Zopp s (Zpos a * 2 ^ (- ez)) + cond_Zopp false (Zpos b * 2 ^ (- ez)))
    with ((cond_Zopp s (Zpos a) + Zpos b) * 2 ^ (- ez))
    by (destruct s; cbv [cond_Zopp]; ring).
  apply binary_normalize_integer; unfold ez; lia.
Qed.

Lemma sub_repr_signed (s : bool) (a b : positive) :
  Zpos a < 2 ^ 53 -> Zpos b < 2 ^ 53 ->
  Z.abs (cond_Zopp s (Zpos a) - Zpos b) < 2 ^ 53 ->
  sub (repr s a) (repr false b) = of_Z (cond_Zopp s (Zpos a) - Zpos b).
Proof.
  intros Ha' Hb' H.
  pose proof (log2_below a Ha') as Ha. pose proof (log2_below b Hb') as Hb.
  pose proof (Z.log2_nonneg (Zpos a)) as Ha0.
  pose proof (Z.log2_nonneg (Zpos b)) as Hb0.
  unfold sub, SFsub, repr.
  set (ez := Z.min (Z.log2 (Zpos a) - 52) (Z.log2 (Zpos b) - 52)).
  rewrite !aligned_mantissa by (unfold ez; lia).
  replace (cond_Zopp s (Zpos a * 2 ^ (- ez)) - cond_Zopp false (Zpos b * 2 ^ (- ez)))
    with ((cond_Zopp s (Zpos a) - Zpos b) * 2 ^ (- ez))
    by (destruct s; cbv [cond_Zopp]; ring).
  apply binary_normalize_integer; unfold ez; lia.
Qed.

Lemma of_Z_cases (a : Z) :
  Z.abs a < 2 ^ 53 ->
  (a = 0 /\ of_Z a = pos_zero)
  \/ (exists s n, a = cond_Zopp s (Zpos n) /\ Zpos n < 2 ^ 53
                  /\ of_Z a = repr s n).
Proof.
  intros H. destruct a as [|n|n]; [left; split; reflexivity| |]; right.
  - exists false, n. repeat split; [exact H|]. apply of_Z_repr, H.
  - exists true, n. repeat split; [exact H|]. apply of_Z_repr, H.
Qed.

Lemma or_else_holds (v : number) (a : Z) :
  holds v a -> Z.abs a < 2 ^ 53 -> or_else v pos_zero = of_Z a.
Proof.
  intros [->|[-> ->]] H; [|reflexivity].
  destruct (of_Z_cases a H) as [[-> ->]|(s & n & -> & _ & ->)]; reflexivity.
Qed.

Lemma operate_integers (op : Operator) (a b : Z) :
  op <> Divide ->
  Z.abs a < 2 ^ 53 -> 0 <= b < 2 ^ 53 ->
  Z.abs (exact_integer op a b) < 2 ^ 53 ->
  holds (operate op (of_Z a) (of_Z b)) (exact_integer op a b)
  /\ isFinite (operate op (of_Z a) (of_Z b)) = true.
Proof.
  intros Hop Ha Hb H.
  assert (F : forall v r, Z.abs r < 2 ^ 53 -> holds v r -> isFinite v = true).
  { intros v r Hr [->|[_ ->]]; [apply of_Z_finite, Hr|reflexivity]. }
  enough (G : holds (operate op (of_Z a) (of_Z b)) (exact_integer op a b))
    by (split; [exact G|exact (F _ _ H G)]).
  destruct (of_Z_cases a Ha) as [[-> Ea]|(s & n & -> & Hn & Ea)];
    destruct (of_Z_nat_cases b Hb) as [[-> Eb]|(m & -> & Eb)].
  - destruct op; try (contradiction Hop; reflexivity); left; reflexivity.
  - rewrite Ea, Eb.
    destruct op; try (contradiction Hop; reflexivity); left.
    + symmetry. exact Eb.
    + symmetry. apply (of_Z_repr m). lia.
    + reflexivity.
  - rewrite Ea, Eb.
    destruct op; try (contradiction Hop; reflexivity);
      cbn [operate exact_integer].
    + left. rewrite Z.add_0_r. symmetry. exact Ea.
    + left. rewrite Z.sub_0_r. symmetry. exact Ea.
    + rewrite Z.mul_0_r. destruct s; [right|left]; split; reflexivity.
  - rewrite Ea, Eb.
    destruct op; try (contradiction Hop; reflexivity);
      cbn [operate exact_integer] in *; left.
    + apply add_repr_signed; lia.
    + apply sub_repr_signed; lia.
    + assert (Hnm : Zpos (n * m) < 2 ^ 53).
      { rewrite Pos2Z.inj_mul. destruct s; cbv [cond_Zopp] in H; lia. }
      rewrite mul_repr by exact Hnm.
      destruct s; cbv [cond_Zopp].
      * change (- Zpos n * Zpos m) with (Zneg (n * m)).
        symmetry. apply of_Z_repr, Hnm.
      * change (Zpos n * Zpos m) with (Zpos (n * m)).
        symmetry. apply of_Z_repr, Hnm.
Qed.

Lemma round9_holds (v : number) (r : Z) :
  holds v r -> Z.abs r * 1000000000 < 2 ^ 53 ->
  holds (round9 v) r /\ toString (round9 v) = integer_string r.
Proof.
  intros Hv Hr.
  assert (H52 : Z.abs r < 2 ^ 52).
  { change (2 ^ 53) with 9007199254740992 in Hr.
    change (2 ^ 52) with 4503599627370496. lia. }
  destruct Hv as [->|[-> ->]].
  - rewrite round9_integer by exact Hr.
    split; [left; reflexivity|apply toString_of_Z, H52].
  - split; [right; split; reflexivity|reflexivity].
Qed.

Lemma divide_integers (a b : Z) :
  Z.abs a < 2 ^ 53 -> 0 < b < 2 ^ 53 -> a mod b = 0 ->
  div (of_Z a) (of_Z b) = of_Z (a / b)
  /\ strict_eq (of_Z b) pos_zero = false.
Proof.
  intros Ha Hb Hm.
  destruct b as [|B|B]; try lia.
  rewrite (proj1 (of_Z_repr B ltac:(lia))).
  split; [|reflexivity].
  pose proof (Z.div_mod a (Zpos B) ltac:(lia)) as E. rewrite Hm in E.
  set (q := a / Zpos B) in *.
  destruct q as [|m|m].
  - replace a with 0 by lia. reflexivity.
  - replace a with (Zpos (m * B)) in * by lia.
    rewrite (proj1 (of_Z_repr (m * B) Ha)), div_repr by exact Ha.
    symmetry. apply of_Z_repr. lia.
  - replace a with (Zneg (m * B)) in * by lia.
    rewrite (proj2 (of_Z_repr (m * B) Ha)), div_repr by exact Ha.
    symmetry. apply of_Z_repr. lia.
Qed.

Lemma operate_exact (op : Operator) (a b : Z) :
  exact_step op a b ->
  Z.abs a < 2 ^ 53 -> 0 <= b < 2 ^ 53 ->
  Z.abs (exact_integer op a b) < 2 ^ 53 ->
  holds (operate op (of_Z a) (of_Z b)) (exact_integer op a b)
  /\ isFinite (operate op (of_Z a) (of_Z b)) = true
  /\ divides_by_zero op (of_Z b) = false.
Proof.
  intros He Ha Hb H.
  assert (D : op = Divide \/ op <> Divide)
    by (destruct op; (left; reflexivity) || (right; discriminate)).
  destruct D as [->|Hop].
  - destruct He as [Hb0 Hm]. cbn [operate exact_integer divides_by_zero] in *.
    destruct (divide_integers a b Ha ltac:(lia) Hm) as [-> Hz].
    repeat split; [left; reflexivity|apply of_Z_finite, H|exact Hz].
  - destruct (operate_integers op a b Hop Ha Hb H) as [Hres Hfin].
    repeat split; [exact Hres|exact Hfin|].
    destruct op; try reflexivity. contradiction Hop. reflexivity.
Qed.

(** X14. On the initial (or cleared) calculator, typing a natural number,
    [+], [-] or [*], a second natural number and an operator key computes
    exactly: when both operands are below [2 ^ 53] and the integer result
    [r] has [|r| * 1000000000 < 2 ^ 53] (that is [|r| <= 9007199]), the
    accumulator becomes the number [r] itself and the display the decimal
    numeral of [r] (with a minus sign when [r] is negative), with no
    error. *)
Theorem typed_integers_computed_exactly
    (ds1 ds2 : list Digit) (d : Digit) (op : Operator)
    (nextOperation : Operation) :
  op <> Divide ->
  digits_value ds1 < 2 ^ 53 ->
  digits_value (d :: ds2) < 2 ^ 53 ->
  Z.abs (exact_integer op (digits_value ds1) (digits_value (d :: ds2)))
  * 1000000000 < 2 ^ 53 ->
  run initial (map DigitEvent ds1 ++ OperationEvent (Some op)
               :: map DigitEvent (d :: ds2)
               ++ [OperationEvent nextOperation])
  = {| display :=
         integer_string (exact_integer op (digits_value ds1)
                                       (digits_value (d :: ds2)));
       previousValue :=
         Some (of_Z (exact_integer op (digits_value ds1)
                                   (digits_value (d :: ds2))));
       operation := nextOperation;
       waitingForOperand := true;
       error := None |}.
Proof.
  intros Hop Ha Hb Hr.
  pose proof (digits_value_nonneg ds1) as Ha0.
  pose proof (digits_value_nonneg (d :: ds2)) as Hb0.
  set (a := digits_value ds1) in *. set (b := digits_value (d :: ds2)) in *.
  assert (Hr' : Z.abs (exact_integer op a b) < 2 ^ 53)
    by (change (2 ^ 53) with 9007199254740992 in *; lia).
  change (map DigitEvent ds1 ++ OperationEvent (Some op)
          :: map DigitEvent (d :: ds2) ++ [OperationEvent nextOperation])%list
    with (map DigitEvent ds1 ++ [OperationEvent (Some op)]
          ++ map DigitEvent (d :: ds2)
          ++ [OperationEvent nextOperation])%list.
  rewrite app_assoc, run_app, typed_integer_state, run_app.
  rewrite type_digits_fresh by reflexivity.
  cbn [previousValue operation].
  change (run ?s [OperationEvent nextOperation])
    with (dispatch (performOperation nextOperation) s).
  assert (Hin : parseFloat (entered_from_zero (d :: ds2)) = of_Z b)
    by apply parseFloat_entered.
  assert (Hres : operate op (or_else (of_Z a) pos_zero) (of_Z b)
                 = of_Z (exact_integer op a b)).
  { rewrite or_else_of_Z by lia.
    apply operate_naturals; try lia. exact Hop. }
  rewrite (performOperation_success _ nextOperation (of_Z a) op);
    cbn [display previousValue operation error]; rewrite ?Hin.
  - rewrite Hres, round9_integer by exact Hr.
    rewrite toString_of_Z; [reflexivity|].
    change (2 ^ 53) with 9007199254740992 in Hr.
    change (2 ^ 52) with 4503599627370496. lia.
  - apply binary_normalize_not_nan.
  - reflexivity.
  - reflexivity.
  - destruct op; try reflexivity. contradiction Hop. reflexivity.
  - rewrite Hres. apply of_Z_finite. exact Hr'.
Qed.

Lemma typed_integers_computed_exactly_witness :
  (Times <> Divide
   /\ digits_value [D1; D2] < 2 ^ 53
   /\ digits_value [D3; D4] < 2 ^ 53
   /\ Z.abs (exact_integer Times (digits_value [D1; D2])
                           (digits_value [D3; D4])) * 1000000000 < 2 ^ 53)
  /\ run initial [DigitEvent D1; DigitEvent D2; OperationEvent (Some Times);
                  DigitEvent D3; DigitEvent D4; OperationEvent (Some Plus)]
     = {| display := "408";
          previousValue := Some (of_Z 408);
          operation := Some Plus;
          waitingForOperand := true;
          error := None |}.
Proof.
  split; [repeat split; discriminate|].
  apply (typed_integers_computed_exactly [D1; D2] [D4] D3 Times (Some Plus));
    [discriminate|reflexivity|reflexivity|reflexivity].
Defined.

(* ================================================================== *)
(** ** Chains of operations                                            *)
(* ================================================================== *)

Lemma pending_step (st : State) (v : number) (a : Z) (op : Operator)
    (d : Digit) (ds : list Digit) (nextOperation : Operation) :
  previousValue st = Some v -> holds v a -> Z.abs a < 2 ^ 53 ->
  operation st = Some op -> waitingForOperand st = true ->
  exact_step op a (digits_value (d :: ds)) ->
  digits_value (d :: ds) < 2 ^ 53 ->
  Z.abs (exact_integer op a (digits_value (d :: ds))) * 1000000000 < 2 ^ 53 ->
  exists v',
    holds v' (exact_integer op a (digits_value (d :: ds)))
    /\ dispatch (performOperation nextOperation)
                (run st (map DigitEvent (d :: ds)))
       = mkState (integer_string (exact_integer op a (digits_value (d :: ds))))
                 (Some v') nextOperation true None.
Proof.
  intros Hp Hv Ha Ho Hw Hop Hb Hr.
  pose proof (digits_value_nonneg (d :: ds)) as Hb0.
  set (b := digits_value (d :: ds)) in *.
  assert (Hr' : Z.abs (exact_integer op a b) < 2 ^ 53)
    by (change (2 ^ 53) with 9007199254740992 in *; lia).
  rewrite (type_digits_fresh d ds st Hw), Hp, Ho.
  assert (Hin : parseFloat (entered_from_zero (d :: ds)) = of_Z b)
    by apply parseFloat_entered.
  destruct (operate_exact op a b Hop Ha ltac:(lia) Hr')
    as (Hres & Hfin & Hz).
  destruct (round9_holds _ _ Hres Hr) as [Hv' Hstr].
  exists (round9 (operate op (of_Z a) (of_Z b))). split; [exact Hv'|].
  rewrite (performOperation_success _ nextOperation v op);
    cbn [display previousValue operation error];
    rewrite ?Hin, ?(or_else_holds v a Hv Ha).
  - rewrite Hstr. reflexivity.
  - apply binary_normalize_not_nan.
  - reflexivity.
  - reflexivity.
  - exact Hz.
  - exact Hfin.
Qed.

Lemma chain_from (items : list Item) :
  forall (st : State) (v : number) (a : Z) (it : Item),
    previousValue st = Some v -> holds v a -> Z.abs a < 2 ^ 53 ->
    operation st = Some (fst it) -> waitingForOperand st = true ->
    chain_bounded a (it :: items) ->
    run st (map DigitEvent (fst (snd it) :: snd (snd it))
            ++ tail_events items)
    = mkState (integer_string (chain_value a (it :: items))) None None true
              None.
Proof.
  induction items as [|it' items IH];
    intros st v a [op [d ds]] Hp Hv Ha Ho Hw (Hop & Hb & Hr & Hrest);
    cbn [fst snd] in *; unfold operand in *; cbn [fst snd] in *.
  - cbn [tail_events chain_value]. rewrite run_app.
    change (run ?s [EqualsEvent]) with (dispatch calculate s).
    rewrite dispatch_calculate. unfold calculate_spec.
    destruct (pending_step st v a op d ds None Hp Hv Ha Ho Hw Hop Hb Hr)
      as (v' & _ & ->).
    reflexivity.
  - cbn [tail_events chain_value].
    change (map DigitEvent (d :: ds)
            ++ OperationEvent (Some (fst it'))
               :: map DigitEvent (fst (snd it') :: snd (snd it'))
                  ++ tail_events items)%list
      with (map DigitEvent (d :: ds)
            ++ [OperationEvent (Some (fst it'))]
            ++ map DigitEvent (fst (snd it') :: snd (snd it'))
               ++ tail_events items)%list.
    rewrite run_app, (run_app _ [_]).
    change (run ?s [OperationEvent ?o])
      with (dispatch (performOperation o) s).
    destruct (pending_step st v a op d ds (Some (fst it'))
                Hp Hv Ha Ho Hw Hop Hb Hr) as (v' & Hv' & ->).
    apply (IH _ v'); try reflexivity; try assumption.
    unfold operand. cbn [fst snd].
    change (2 ^ 53) with 9007199254740992 in *. lia.
Qed.

(** X15. A chain [n0 op1 n1 op2 n2 ... opk nk =] of natural numbers and
    operators, typed on the initial (or cleared) calculator, is evaluated
    from left to right without regard to precedence, and exactly: when
    every division is by a positive number and leaves no remainder, every
    operand is below [2 ^ 53] and every intermediate result [r] has
    [|r| * 1000000000 < 2 ^ 53], the display ends as the decimal numeral
    of the last result, with no accumulator, no pending operation and no
    error. *)
Theorem chain_of_integers_is_exact
    (ds0 : list Digit) (it : Item) (items : list Item) :
  digits_value ds0 < 2 ^ 53 ->
  chain_bounded (digits_value ds0) (it :: items) ->
  run initial (map DigitEvent ds0 ++ tail_events (it :: items))
  = {| display := integer_string (chain_value (digits_value ds0)
                                              (it :: items));
       previousValue := None;
       operation := None;
       waitingForOperand := true;
       error := None |}.
Proof.
  intros H0 Hc. pose proof (digits_value_nonneg ds0) as Hn.
  cbn [tail_events].
  change (map DigitEvent ds0
          ++ OperationEvent (Some (fst it))
             :: map DigitEvent (fst (snd it) :: snd (snd it))
                ++ tail_events items)%list
    with (map DigitEvent ds0
          ++ [OperationEvent (Some (fst it))]
          ++ map DigitEvent (fst (snd it) :: snd (snd it))
             ++ tail_events items)%list.
  rewrite app_assoc, run_app, typed_integer_state.
  apply (chain_from items _ (of_Z (digits_value ds0)) (digits_value ds0) it);
    try reflexivity; try assumption.
  - left. reflexivity.
  - lia.
Qed.

Lemma chain_of_integers_is_exact_witness :
  (digits_value [D2] < 2 ^ 53
   /\ chain_bounded (digits_value [D2])
                     [(Plus, (D3, [])); (Times, (D4, [])); (Divide, (D5, []));
                      (Minus, (D2, [D5]))])
  /\ run initial [DigitEvent D2; OperationEvent (Some Plus); DigitEvent D3;
                  OperationEvent (Some Times); DigitEvent D4;
                  OperationEvent (Some Divide); DigitEvent D5;
                  OperationEvent (Some Minus); DigitEvent D2; DigitEvent D5;
                  EqualsEvent]
     = {| display := "-21";
          previousValue := None;
          operation := None;
          waitingForOperand := true;
          error := None |}.
Proof.
  split; [split; [reflexivity|repeat split]|].
  apply (chain_of_integers_is_exact [D2] (Plus, (D3, []))
           [(Times, (D4, [])); (Divide, (D5, [])); (Minus, (D2, [D5]))]);
    [reflexivity|repeat split].
Defined.
